(** * WorkFlow backend: authentication and session lifecycle

    A shallow embedding of the Express controllers of the WorkFlow backend
    (auth controller, user controller, authentication middleware and the
    validation chain of the user routes), together with the properties of
    the credential store, the token service and the Google identity
    reconciliation.

    Conventions.
    - Every controller module owns a module-level array [users]; a handler
      is a computation over that array which may respond early, throw, and
      call into bcryptjs, jsonwebtoken or google-auth-library.  Those three
      libraries are not part of the repository: they are taken as a record
      of functions ([libraries]) and every call to them is logged.
    - In [exec], [handle] and [serve] a handler runs to completion before
      the next request is served.  An [async] handler in fact suspends at
      every [await], and other requests are served meanwhile; [signup] is
      modelled a second time with its suspension points ([signup_async]),
      and [deliver] runs overlapping signups.
    - The clock ([Date.now()], [new Date()]) is read once per request and
      passed in the request environment together with the salt that
      [bcrypt.genSalt] draws. *)

From Stdlib Require Import NArith Lia Ascii String.
From stdpp Require Import base option list strings pretty.

Open Scope string_scope.
Open Scope list_scope.
Open Scope stdpp_scope.

(** ** JavaScript values *)

(** Milliseconds since the epoch; [toISOString] renders them injectively. *)
Definition timestamp := N.
Bind Scope N_scope with timestamp.

(** Truthiness of an optional string ([undefined], [null] and the empty
    string are falsy). *)
Definition truthy (v : option string) : bool :=
  match v with
  | Some s => negb (String.eqb s "")
  | None => false
  end.

(** [a || b] on an optional string with a string default. *)
Definition or_else (v : option string) (d : string) : string :=
  match v with
  | Some s => if String.eqb s "" then d else s
  | None => d
  end.

(** ** Data model *)

(** A user record.  The type of the [password] field is a parameter so that
    the rest pattern [{ password: _, ...userWithoutPassword }] has a type of
    its own: [user] stores [null] or a bcrypt hash, [userWithoutPassword]
    stores nothing. *)
Module User.
Record userOf (P : Type) := mkUser {
  id : string;
  name : string;
  email : string;
  password : P;
  googleId : option string;
  avatar : option string;
  role : string;
  isActive : bool;
  emailVerified : option bool;
  createdAt : timestamp;
  updatedAt : timestamp;
  lastLogin : option timestamp;
}.
Arguments mkUser {P}.
Arguments id {P}.
Arguments name {P}.
Arguments email {P}.
Arguments password {P}.
Arguments googleId {P}.
Arguments avatar {P}.
Arguments role {P}.
Arguments isActive {P}.
Arguments emailVerified {P}.
Arguments createdAt {P}.
Arguments updatedAt {P}.
Arguments lastLogin {P}.
End User.
Export User.

Abbreviation user := (userOf (option string)).
Abbreviation userWithoutPassword := (userOf unit).

(** [const { password: _, ...userWithoutPassword } = user] *)
Definition omit_password (u : user) : userWithoutPassword :=
  mkUser (id u) (name u) (email u) tt (googleId u) (avatar u) (role u)
         (isActive u) (emailVerified u) (createdAt u) (updatedAt u) (lastLogin u).

(** Field assignments on a record. *)
Definition set_lastLogin (t : timestamp) (u : user) : user :=
  mkUser (id u) (name u) (email u) (password u) (googleId u) (avatar u) (role u)
         (isActive u) (emailVerified u) (createdAt u) (updatedAt u) (Some t).

Definition set_updatedAt (t : timestamp) (u : user) : user :=
  mkUser (id u) (name u) (email u) (password u) (googleId u) (avatar u) (role u)
         (isActive u) (emailVerified u) (createdAt u) t (lastLogin u).

Definition set_googleId (g : string) (u : user) : user :=
  mkUser (id u) (name u) (email u) (password u) (Some g) (avatar u) (role u)
         (isActive u) (emailVerified u) (createdAt u) (updatedAt u) (lastLogin u).

Definition set_password (h : string) (u : user) : user :=
  mkUser (id u) (name u) (email u) (Some h) (googleId u) (avatar u) (role u)
         (isActive u) (emailVerified u) (createdAt u) (updatedAt u) (lastLogin u).

Definition set_name (n : string) (u : user) : user :=
  mkUser (id u) n (email u) (password u) (googleId u) (avatar u) (role u)
         (isActive u) (emailVerified u) (createdAt u) (updatedAt u) (lastLogin u).

Definition set_email (e : string) (u : user) : user :=
  mkUser (id u) (name u) e (password u) (googleId u) (avatar u) (role u)
         (isActive u) (emailVerified u) (createdAt u) (updatedAt u) (lastLogin u).

(** ** Errors and responses *)

(** http-status-codes *)
Module StatusCodes.
Definition OK : nat := 200.
Definition CREATED : nat := 201.
Definition BAD_REQUEST : nat := 400.
Definition UNAUTHORIZED : nat := 401.
Definition FORBIDDEN : nat := 403.
Definition NOT_FOUND : nat := 404.
Definition CONFLICT : nat := 409.
Definition UNPROCESSABLE_ENTITY : nat := 422.
Definition INTERNAL_SERVER_ERROR : nat := 500.
Definition NOT_IMPLEMENTED : nat := 501.
End StatusCodes.

(** What a handler can pass to [next(err)]: an [ApiError] built by
    [createError], or whatever a library threw. *)
Inductive error :=
| ApiError (statusCode : nat) (message : string) (errors : list (string * string))
| Thrown (name : string).

(** [createError(statusCode, message, errors = [])] *)
Definition createError (statusCode : nat) (message : string) : error :=
  ApiError statusCode message [].


(** The JSON bodies the controllers send. *)
Inductive body :=
| Session (message : option string) (user : userWithoutPassword)
          (token refreshToken : string)
| AccessToken (token : string)
| Profile (message : option string) (data : userWithoutPassword)
| Message (success : bool) (message : string).

Inductive redirect :=
| ToProvider
| ToFrontend (token refreshToken : string) (user : userWithoutPassword)
| ToFrontendError (code : string).

Inductive response :=
| Json (status : nat) (payload : body)
| Next (err : error)
| NextHandler
| Redirect (target : redirect).

(** ** External libraries *)

(** [jwt.verify] reports failures by the [name] of the error. *)
Inductive jwt_error := TokenExpiredError | JsonWebTokenError | NotBeforeError.

Definition jwt_error_name (e : jwt_error) : string :=
  match e with
  | TokenExpiredError => "TokenExpiredError"
  | JsonWebTokenError => "JsonWebTokenError"
  | NotBeforeError => "NotBeforeError"
  end.

(** The decoded payload of a token signed from [{ userId }]. *)
Record decoded := mkDecoded { userId : string; iat : N; exp : N }.

Inductive verified :=
| Decoded (d : decoded)
| VerifyError (e : jwt_error).

(** The payload of a Google ID token: [sub], [email], [name], [picture]. *)
Record TokenPayload := mkPayload {
  sub : string;
  payload_email : string;
  payload_name : string;
  picture : option string;
}.

(** bcryptjs, jsonwebtoken and google-auth-library.
    - [hash plaintext salt] and [compare plaintext hash] are [bcrypt.hash]
      and [bcrypt.compare] on strings; [bcrypt.compare] rejects when the
      hash is not a string.
    - [sign userId secret expiresIn clock] is [jwt.sign({ userId }, secret,
      { expiresIn })] at time [clock] (lifetime in seconds, clock in
      milliseconds); [verify token secret clock] is [jwt.verify].
    - [getToken code] is the [id_token] of the code exchange and
      [verifyIdToken idToken] the payload of the ticket; [None] when the
      call rejects. *)
Record libraries := mkLibraries {
  hash : string → string → string;
  compare : string → string → bool;
  sign : string → string → N → timestamp → string;
  verify : string → string → timestamp → verified;
  getToken : string → option string;
  verifyIdToken : string → option TokenPayload;
}.

(** A call into one of the libraries. *)
Inductive call :=
| BcryptGenSalt (rounds : nat)
| BcryptHash (plaintext salt : string)
| BcryptCompare (plaintext : string) (hash : option string)
| JwtSign (subject : string) (expiresIn : N)
| JwtVerify (token : string)
| GoogleGetToken (code : string)
| GoogleVerifyIdToken (idToken : string).

(** [config.jwt] *)
Record config := mkConfig {
  jwt_secret : string;
  jwt_expiresIn : N;
}.

Definition days (n : N) : N := (n * 86400)%N.

(** The defaults of the configuration module. *)
Definition default_config : config :=
  mkConfig "your_jwt_secret_key_here" (days 7).

(** What a request reads from the outside world. *)
Record env := mkEnv {
  now : timestamp;
  salt : string;
}.

(** ** Handlers *)

Inductive outcome (A : Type) :=
| Value (a : A)
| Responded (r : response)
| Raised (e : error).
Arguments Value {A}.
Arguments Responded {A}.
Arguments Raised {A}.

(** A computation over the module-level [users] array that logs its calls
    to the libraries. *)
Definition M (A : Type) : Type :=
  list user → outcome A * list user * list call.

Definition ret {A} (a : A) : M A := λ users, (Value a, users, []).

Definition bind {A B} (m : M A) (f : A → M B) : M B :=
  λ users,
    match m users with
    | (Value a, users1, log1) =>
        match f a users1 with
        | (o, users2, log2) => (o, users2, log1 ++ log2)
        end
    | (Responded r, users1, log1) => (Responded r, users1, log1)
    | (Raised e, users1, log1) => (Raised e, users1, log1)
    end.

Global Instance M_ret : MRet M := @ret.
Global Instance M_bind : MBind M := λ A B f m, bind m f.

(** [return res.status(..).json(..)], [return next(..)], [res.redirect(..)] *)
Definition respond {A} (r : response) : M A := λ users, (Responded r, users, []).

(** [throw], or an [await] on a rejected promise. *)
Definition throw {A} (e : error) : M A := λ users, (Raised e, users, []).

Definition get_users : M (list user) := λ users, (Value users, users, []).
Definition put_users (users' : list user) : M unit := λ _, (Value tt, users', []).
Definition log (c : call) : M unit := λ users, (Value tt, users, [c]).

(** [try { m } catch (error) { h error }] *)
Definition try_catch {A} (m : M A) (h : error → M A) : M A :=
  λ users,
    match m users with
    | (Raised e, users1, log1) =>
        match h e users1 with
        | (o, users2, log2) => (o, users2, log1 ++ log2)
        end
    | r => r
    end.

(** The response of a handler, the array it leaves and the calls it made. *)
Definition exec (h : M response) (users : list user)
  : response * list user * list call :=
  match h users with
  | (Value r, users', l) => (r, users', l)
  | (Responded r, users', l) => (r, users', l)
  | (Raised e, users', l) => (Next e, users', l)
  end.

(** ** Strings *)

(** [s.split(sep)] for a one-character separator: the pieces between the
    occurrences of [sep], so never an empty list. *)
Fixpoint split (sep : ascii) (s : string) : list string :=
  match s with
  | EmptyString => [EmptyString]
  | String c s' =>
      if Ascii.eqb c sep then EmptyString :: split sep s'
      else match split sep s' with
           | piece :: pieces => String c piece :: pieces
           | [] => [String c EmptyString]
           end
  end.

(** [/[a-z]/], [/[A-Z]/] and [/[0-9]/] *)
Definition in_range (lo hi : ascii) (c : ascii) : bool :=
  (N_of_ascii lo <=? N_of_ascii c)%N && (N_of_ascii c <=? N_of_ascii hi)%N.

Definition lowercase : ascii → bool := in_range "a" "z".
Definition uppercase : ascii → bool := in_range "A" "Z".
Definition digit : ascii → bool := in_range "0" "9".

(** [.matches(/[c]/)]: some character of the string is in the class. *)
Fixpoint matches (class : ascii → bool) (s : string) : bool :=
  match s with
  | EmptyString => false
  | String c s' => class c || matches class s'
  end.

(** ** Request validation (express-validator) *)

(** A validation error: [param] and [msg]. *)
Definition validationError : Type := string * string.

(** One validator of a chain, with its [withMessage]; a missing field is
    validated as the empty string. *)
Definition check (field : string) (value : option string)
    (valid : string → bool) (msg : string) : list validationError :=
  if valid (default "" value) then [] else [(field, msg)].

Definition notEmpty (s : string) : bool := negb (String.eqb s "").

Definition isLength_min (min : nat) (s : string) : bool :=
  (min <=? String.length s)%nat.

(** The chain of [body('newPassword')]. *)
Definition passwordChain (field : string) (value : option string)
  : list validationError :=
  check field value (isLength_min 8) "Password must be at least 8 characters long"
  ++ check field value (matches lowercase)
       "Password must contain at least one lowercase letter"
  ++ check field value (matches uppercase)
       "Password must contain at least one uppercase letter"
  ++ check field value (matches digit) "Password must contain at least one number".

Definition changePasswordValidation (currentPassword newPassword : option string)
  : list validationError :=
  check "currentPassword" currentPassword notEmpty "Current password is required"
  ++ passwordChain "newPassword" newPassword.

(** [validateRequest]: [next(createError(422, 'Validation failed', errors))]
    when the chain reported errors, [next()] otherwise. *)
Definition validateRequest (errors : list validationError) : M unit :=
  match errors with
  | [] => mret tt
  | _ => respond (Next (ApiError StatusCodes.UNPROCESSABLE_ENTITY
                                 "Validation failed" errors))
  end.

Section Backend.
Context (L : libraries) (cfg : config).

(** *** Library calls *)

Definition bcrypt_genSalt (e : env) (rounds : nat) : M string :=
  log (BcryptGenSalt rounds);; mret (salt e).

Definition bcrypt_hash (plaintext salt : string) : M string :=
  log (BcryptHash plaintext salt);; mret (hash L plaintext salt).

Definition bcrypt_compare (plaintext : string) (h : option string) : M bool :=
  log (BcryptCompare plaintext h);;
  match h with
  | Some h => mret (compare L plaintext h)
  | None => throw (Thrown "Illegal arguments: string, object")
  end.

Definition jwt_sign (e : env) (subject secret : string) (expiresIn : N) : M string :=
  log (JwtSign subject expiresIn);; mret (sign L subject secret expiresIn (now e)).

Definition jwt_verify (e : env) (token secret : string) : M verified :=
  log (JwtVerify token);; mret (verify L token secret (now e)).

Definition oauth_getToken (code : string) : M string :=
  log (GoogleGetToken code);;
  match getToken L code with
  | Some id_token => mret id_token
  | None => throw (Thrown "GaxiosError")
  end.

Definition oauth_verifyIdToken (idToken : string) : M TokenPayload :=
  log (GoogleVerifyIdToken idToken);;
  match verifyIdToken L idToken with
  | Some payload => mret payload
  | None => throw (Thrown "Error")
  end.

(** ** The auth controller

    The repository carries two revisions of this controller.  They agree on
    [signup], [signin], [refreshToken] and the unimplemented endpoints; the
    revision modelled here also implements the Google sign-in, which the
    other one answers with [NOT_IMPLEMENTED]. *)

(** *** Tokens *)

Definition generateToken (e : env) (userId : string) : M string :=
  jwt_sign e userId (jwt_secret cfg) (jwt_expiresIn cfg).

(** [jwt.sign({ userId }, config.jwt.secret, { expiresIn: '30d' })] *)
Definition signRefreshToken (e : env) (userId : string) : M string :=
  jwt_sign e userId (jwt_secret cfg) (days 30).

(** *** signup *)

Definition signup (e : env) (name email password : string) : M response :=
  try_catch
    (users ← get_users;
     match list_find (λ user, user.(User.email) = email) users with
     | Some _ =>
         respond (Next (createError StatusCodes.CONFLICT "Email already in use"))
     | None =>
         salt ← bcrypt_genSalt e 10;
         hashedPassword ← bcrypt_hash password salt;
         let newUser : user :=
           mkUser (pretty (now e)) name email (Some hashedPassword) None None
                  "user" true None (now e) (now e) None in
         put_users (users ++ [newUser]);;
         token ← generateToken e (id newUser);
         refreshToken ← signRefreshToken e (id newUser);
         respond (Json StatusCodes.CREATED
                    (Session (Some "User registered successfully")
                             (omit_password newUser) token refreshToken))
     end)
    (λ error, respond (Next error)).

(** *** signin *)

Definition signin (e : env) (email password : string) : M response :=
  try_catch
    (users ← get_users;
     match list_find (λ u, u.(User.email) = email) users with
     | None =>
         respond (Next (createError StatusCodes.UNAUTHORIZED "Invalid credentials"))
     | Some (i, user) =>
         if negb (isActive user) then
           respond (Next (createError StatusCodes.FORBIDDEN "Account is deactivated"))
         else
           isPasswordValid ← bcrypt_compare password (User.password user);
           if negb isPasswordValid then
             respond (Next (createError StatusCodes.UNAUTHORIZED "Invalid credentials"))
           else
             token ← generateToken e (id user);
             refreshToken ← signRefreshToken e (id user);
             let userWithoutPassword := omit_password user in
             put_users (alter (set_lastLogin (now e)) i users);;
             respond (Json StatusCodes.OK
                        (Session (Some "Logged in successfully")
                                 userWithoutPassword token refreshToken))
     end)
    (λ error, respond (Next error)).

(** *** refreshToken *)

Definition refreshToken (e : env) (refreshToken : option string) : M response :=
  try_catch
    (match refreshToken with
     | None | Some "" =>
         respond (Next (createError StatusCodes.BAD_REQUEST "Refresh token is required"))
     | Some refreshToken =>
         r ← jwt_verify e refreshToken (jwt_secret cfg);
         match r with
         | VerifyError err =>
             respond (Next (createError StatusCodes.FORBIDDEN "Invalid refresh token"))
         | Decoded decoded =>
             token ← generateToken e (userId decoded);
             respond (Json StatusCodes.OK (AccessToken token))
         end
     end)
    (λ error, respond (Next error)).

(** *** Unimplemented endpoints and signout *)

Definition forgotPassword : M response :=
  respond (Json StatusCodes.NOT_IMPLEMENTED
             (Message false "Forgot password functionality not implemented yet")).

Definition resetPassword : M response :=
  respond (Json StatusCodes.NOT_IMPLEMENTED
             (Message false "Reset password functionality not implemented yet")).

Definition signout : M response :=
  respond (Json StatusCodes.OK (Message true "Successfully logged out")).

Definition facebookLogin : M response :=
  respond (Json StatusCodes.NOT_IMPLEMENTED
             (Message false "Facebook login not implemented yet")).

Definition facebookCallback : M response :=
  respond (Json StatusCodes.NOT_IMPLEMENTED
             (Message false "Facebook callback not implemented yet")).

(** *** Google sign-in *)

Definition googleLogin : M response :=
  try_catch
    (respond (Redirect ToProvider))
    (λ error, respond (Json StatusCodes.INTERNAL_SERVER_ERROR
                         (Message false "Error initiating Google authentication"))).

(** The lookup of both Google handlers:
    [users.find(u => u.googleId === googleId || u.email === email)]. *)
Definition findGoogleUser (googleId email : string) (users : list user)
  : option (nat * user) :=
  list_find (λ u, u.(User.googleId) = Some googleId
                  ∨ u.(User.email) = email) users.

(** "Find or create user in your database": the block that
    [googleCallback] and [googleAuth] share word for word.  It yields the
    object bound to [user] afterwards. *)
Definition findOrCreateUser (e : env) (payload : TokenPayload) : M user :=
  let googleId := sub payload in
  let email := payload_email payload in
  users ← get_users;
  match findGoogleUser googleId email users with
  | None =>
      let user : user :=
        mkUser (pretty (now e)) (payload_name payload) email None (Some googleId)
               (picture payload) "user" true (Some true) (now e) (now e) None in
      put_users (users ++ [user]);;
      mret user
  | Some (i, user) =>
      if negb (truthy (User.googleId user)) then
        let linked := set_updatedAt (now e) (set_googleId googleId user) in
        put_users (<[i := linked]> users);;
        mret linked
      else mret user
  end.

Definition googleCallback (e : env) (code : option string) : M response :=
  try_catch
    (match code with
     | None | Some "" =>
         respond (Json StatusCodes.BAD_REQUEST
                    (Message false "Authorization code is required"))
     | Some code =>
         id_token ← oauth_getToken code;
         payload ← oauth_verifyIdToken id_token;
         user ← findOrCreateUser e payload;
         token ← generateToken e (id user);
         refreshToken ← signRefreshToken e (id user);
         respond (Redirect (ToFrontend token refreshToken (omit_password user)))
     end)
    (λ error, respond (Redirect (ToFrontendError "google_auth_failed"))).

Definition googleAuth (e : env) (credential : option string) : M response :=
  try_catch
    (match credential with
     | None | Some "" =>
         respond (Next (createError StatusCodes.BAD_REQUEST "Credential is required"))
     | Some credential =>
         payload ← oauth_verifyIdToken credential;
         user ← findOrCreateUser e payload;
         token ← generateToken e (id user);
         refreshToken ← signRefreshToken e (id user);
         respond (Json StatusCodes.OK
                    (Session None (omit_password user) token refreshToken))
     end)
    (λ error,
       respond (Next (createError StatusCodes.UNAUTHORIZED
                        "Google authentication failed"))).

(** ** The user controller

    It declares a [users] array of its own; its handlers read [req.userId],
    which the authentication middleware sets. *)

Definition getCurrentUser (userId : string) : M response :=
  try_catch
    (users ← get_users;
     match list_find (λ u, u.(User.id) = userId) users with
     | None => respond (Next (createError StatusCodes.NOT_FOUND "User not found"))
     | Some (_, user) =>
         respond (Json StatusCodes.OK (Profile None (omit_password user)))
     end)
    (λ error, respond (Next error)).

(** [users.some(u => u.email === email && u.id !== req.userId)] *)
Definition emailExists (email userId : string) (users : list user) : bool :=
  bool_decide (Exists (λ u, u.(User.email) = email ∧ u.(User.id) ≠ userId) users).

Definition updateCurrentUser (e : env) (userId : string) (name email : option string)
  : M response :=
  try_catch
    (users ← get_users;
     match list_find (λ u, u.(User.id) = userId) users with
     | None => respond (Next (createError StatusCodes.NOT_FOUND "User not found"))
     | Some (userIndex, current) =>
         if truthy email
            && negb (bool_decide (email = Some (User.email current)))
            && emailExists (default "" email) userId users
         then respond (Next (createError StatusCodes.CONFLICT "Email already in use"))
         else
           let updatedUser :=
             set_updatedAt (now e)
               (set_email (or_else email (User.email current))
                  (set_name (or_else name (User.name current)) current)) in
           put_users (<[userIndex := updatedUser]> users);;
           respond (Json StatusCodes.OK
                      (Profile (Some "Profile updated successfully")
                               (omit_password updatedUser)))
     end)
    (λ error, respond (Next error)).

Definition deleteCurrentUser (userId : string) : M response :=
  try_catch
    (users ← get_users;
     match list_find (λ u, u.(User.id) = userId) users with
     | None => respond (Next (createError StatusCodes.NOT_FOUND "User not found"))
     | Some (userIndex, _) =>
         put_users (delete userIndex users);;
         respond (Json StatusCodes.OK (Message true "Account deleted successfully"))
     end)
    (λ error, respond (Next error)).

Definition changePassword (e : env) (userId currentPassword newPassword : string)
  : M response :=
  try_catch
    (users ← get_users;
     match list_find (λ u, u.(User.id) = userId) users with
     | None => respond (Next (createError StatusCodes.NOT_FOUND "User not found"))
     | Some (userIndex, user) =>
         isPasswordValid ← bcrypt_compare currentPassword (User.password user);
         if negb isPasswordValid then
           respond (Next (createError StatusCodes.UNAUTHORIZED
                            "Current password is incorrect"))
         else
           salt ← bcrypt_genSalt e 10;
           hashedPassword ← bcrypt_hash newPassword salt;
           let user := set_updatedAt (now e) (set_password hashedPassword user) in
           put_users (<[userIndex := user]> users);;
           respond (Json StatusCodes.OK (Message true "Password changed successfully"))
     end)
    (λ error, respond (Next error)).

(** ** The authentication middleware *)

(** [authenticate] either answers through [next(err)] or sets [req.userId]
    and calls [next()]; its value is the [req.userId] it sets. *)
Definition authenticate (e : env) (authorization : option string) : M string :=
  try_catch
    (match authorization with
     | None | Some "" =>
         respond (Next (createError StatusCodes.UNAUTHORIZED "No token provided"))
     | Some authHeader =>
         if negb (String.prefix "Bearer " authHeader) then
           respond (Next (createError StatusCodes.UNAUTHORIZED "No token provided"))
         else
           match split " " authHeader !! 1%nat with
           | None | Some "" =>
               respond (Next (createError StatusCodes.UNAUTHORIZED "No token provided"))
           | Some token =>
               r ← jwt_verify e token (jwt_secret cfg);
               match r with
               | VerifyError err =>
                   if String.eqb (jwt_error_name err) "TokenExpiredError" then
                     respond (Next (createError StatusCodes.UNAUTHORIZED "Token expired"))
                   else
                     respond (Next (createError StatusCodes.UNAUTHORIZED "Invalid token"))
               | Decoded decoded => mret (userId decoded)
               end
           end
     end)
    (λ error, respond (Next error)).

(** ** The user routes

    [POST /change-password]: [router.use(authenticate)] runs first, then the
    validation chain of the route and [validateRequest], then the
    controller.  The fields of the body may be missing; the controller only
    runs once the chain has found both present and non-empty. *)

Definition route_changePassword (e : env)
    (authorization currentPassword newPassword : option string) : M response :=
  userId ← authenticate e authorization;
  validateRequest (changePasswordValidation currentPassword newPassword);;
  changePassword e userId (default "" currentPassword) (default "" newPassword).

End Backend.

(** ** The application state

    The auth controller and the user controller are two modules, each with
    its own [const users = []]. *)

Record app := mkApp {
  authUsers : list user;
  userUsers : list user;
}.

(** Both arrays are empty when the process starts. *)
Definition boot : app := mkApp [] [].

(** An invocation of an exported handler. *)
Inductive operation :=
| Signup (name email password : string)
| Signin (email password : string)
| RefreshToken (refreshToken : option string)
| ForgotPassword
| ResetPassword
| Signout
| FacebookLogin
| FacebookCallback
| GoogleLogin
| GoogleCallback (code : option string)
| GoogleAuth (credential : option string)
| GetCurrentUser (userId : string)
| UpdateCurrentUser (userId : string) (name email : option string)
| DeleteCurrentUser (userId : string)
| ChangePassword (userId currentPassword newPassword : string).

(** The handlers of the auth controller. *)
Definition is_auth_operation (op : operation) : bool :=
  match op with
  | GetCurrentUser _ | UpdateCurrentUser _ _ _ | DeleteCurrentUser _
  | ChangePassword _ _ _ => false
  | _ => true
  end.

(** A handler of the auth controller runs on [authUsers], a handler of the
    user controller on [userUsers]. *)
Definition on_auth (h : M response) (a : app) : response * app :=
  match exec h (authUsers a) with
  | (r, users', _) => (r, mkApp users' (userUsers a))
  end.

Definition on_user (h : M response) (a : app) : response * app :=
  match exec h (userUsers a) with
  | (r, users', _) => (r, mkApp (authUsers a) users')
  end.

Definition handle (L : libraries) (cfg : config) (e : env) (op : operation)
    (a : app) : response * app :=
  match op with
  | Signup name email password => on_auth (signup L cfg e name email password) a
  | Signin email password => on_auth (signin L cfg e email password) a
  | RefreshToken t => on_auth (refreshToken L cfg e t) a
  | ForgotPassword => on_auth forgotPassword a
  | ResetPassword => on_auth resetPassword a
  | Signout => on_auth signout a
  | FacebookLogin => on_auth facebookLogin a
  | FacebookCallback => on_auth facebookCallback a
  | GoogleLogin => on_auth googleLogin a
  | GoogleCallback code => on_auth (googleCallback L cfg e code) a
  | GoogleAuth credential => on_auth (googleAuth L cfg e credential) a
  | GetCurrentUser userId => on_user (getCurrentUser userId) a
  | UpdateCurrentUser userId name email =>
      on_user (updateCurrentUser e userId name email) a
  | DeleteCurrentUser userId => on_user (deleteCurrentUser userId) a
  | ChangePassword userId currentPassword newPassword =>
      on_user (changePassword L e userId currentPassword newPassword) a
  end.

(** The state after a sequence of requests, served one after the other. *)
Fixpoint serve (L : libraries) (cfg : config) (reqs : list (env * operation))
    (a : app) : app :=
  match reqs with
  | [] => a
  | (e, op) :: reqs' => serve L cfg reqs' (handle L cfg e op a).2
  end.

(** The states the process can be in. *)
Definition reachable (L : libraries) (cfg : config) (a : app) : Prop :=
  ∃ reqs, a = serve L cfg reqs boot.

(** ** A reference implementation of the libraries

    Small executable stand-ins for bcryptjs, jsonwebtoken and the Google
    client, used to run the handlers on concrete requests. *)

Module Reference.

(** Binary numerals as text: a run of [0]/[1] digits, least significant
    first, closed by [.]. *)
Fixpoint write_positive (p : positive) : string :=
  match p with
  | xH => "."
  | xO p' => String "0" (write_positive p')
  | xI p' => String "1" (write_positive p')
  end.

Definition write_N (n : N) : string :=
  match n with
  | N0 => "z"
  | Npos p => String "p" (write_positive p)
  end.

Fixpoint read_positive (s : string) : option (positive * string) :=
  match s with
  | String "." r => Some (xH, r)
  | String "0" r => '(p, r') ← read_positive r; Some (xO p, r')
  | String "1" r => '(p, r') ← read_positive r; Some (xI p, r')
  | _ => None
  end.

Definition read_N (s : string) : option (N * string) :=
  match s with
  | String "z" r => Some (N0, r)
  | String "p" r => '(p, r') ← read_positive r; Some (Npos p, r')
  | _ => None
  end.

(** The first [n] characters of a string and what follows them. *)
Fixpoint take_string (n : nat) (s : string) : option (string * string) :=
  match n, s with
  | O, _ => Some (EmptyString, s)
  | S n', String c r => '(t, r') ← take_string n' r; Some (String c t, r')
  | S _, EmptyString => None
  end.

(** A token lists issue time, expiry, the key it was signed with (preceded
    by its length) and the subject. *)
Definition sign (subject secret : string) (expiresIn : N) (clock : timestamp)
  : string :=
  let iat := (clock / 1000)%N in
  write_N iat +:+ write_N (iat + expiresIn)
  +:+ write_N (N.of_nat (String.length secret)) +:+ secret +:+ subject.

Definition parse (token : string) : option (N * N * string * string) :=
  '(iat, r1) ← read_N token;
  '(exp, r2) ← read_N r1;
  '(len, r3) ← read_N r2;
  '(key, subject) ← take_string (N.to_nat len) r3;
  Some (iat, exp, key, subject).

Definition verify (token secret : string) (clock : timestamp) : verified :=
  match parse token with
  | None => VerifyError JsonWebTokenError
  | Some (iat, exp, key, subject) =>
      if negb (String.eqb key secret) then VerifyError JsonWebTokenError
      else if (exp <=? clock / 1000)%N then VerifyError TokenExpiredError
      else Decoded (mkDecoded subject iat exp)
  end.

(** A hash is the salt, a [$] and the plaintext; salts carry no [$]. *)
Definition hash (plaintext salt : string) : string :=
  salt +:+ String "$" plaintext.

Fixpoint after_dollar (h : string) : string :=
  match h with
  | EmptyString => EmptyString
  | String c r => if Ascii.eqb c "$" then r else after_dollar r
  end.

Definition compare (plaintext h : string) : bool :=
  String.eqb (after_dollar h) plaintext.

(** The provider vouches for credentials of the form [sub|email]. *)
Definition verifyIdToken (idToken : string) : option TokenPayload :=
  match split "|" idToken with
  | [s; m] => Some (mkPayload s m "Google user" None)
  | _ => None
  end.

Definition getToken (code : string) : option string :=
  if String.prefix "code:" code then Some (String.substring 5 (String.length code - 5) code)
  else None.

Definition libs : libraries :=
  mkLibraries hash compare sign verify getToken verifyIdToken.

End Reference.

(** ** Concrete requests and stores

    The scenario of the testable properties: Ann signs up with a password,
    Bob's account has been deactivated, Gia signed in with Google. *)

Module Scenario.

Definition cfg : config := default_config.

Definition e1 : env := mkEnv 1000 "s1".
Definition e2 : env := mkEnv 2000 "s2".
Definition e3 : env := mkEnv 3000 "s3".

Definition ann : user :=
  mkUser "1000" "Ann" "ann@x.com" (Some "s1$Abcd1234") None None "user" true None
         1000 1000 None.

Definition bob : user :=
  mkUser "1500" "Bob" "bob@x.com" (Some "s0$Bobs4Pass") None None "user" false None
         1500 1500 None.

Definition gia : user :=
  mkUser "2000" "Google user" "gia@x.com" None (Some "g-gia") None "user" true
         (Some true) 2000 2000 None.

(** Tokens for Ann minted at [e1]: her access token, her refresh token, a
    token that lives one second, and a token signed with another key. *)
Definition annAccess : string :=
  Reference.sign "1000" (jwt_secret cfg) (jwt_expiresIn cfg) 1000.
Definition annRefresh : string :=
  Reference.sign "1000" (jwt_secret cfg) (days 30) 1000.
Definition stale : string := Reference.sign "1000" (jwt_secret cfg) 1 1000.
Definition forged : string := Reference.sign "1000" "not-the-secret" (days 7) 1000.

End Scenario.

(** ** Vocabulary of the specification *)

(** Email uniqueness: no two records of the array share an email. *)
Definition emails_unique (users : list user) : Prop :=
  NoDup (User.email <$> users).

Definition ids_unique (users : list user) : Prop :=
  NoDup (User.id <$> users).

(** What the arrays of a running process satisfy: the emails of each array
    are pairwise distinct, and so are the ids of the user controller's
    array, which its uniqueness re-check relies on. *)
Definition app_invariant (a : app) : Prop :=
  emails_unique (authUsers a)
  ∧ emails_unique (userUsers a)
  ∧ ids_unique (userUsers a).

(** The complexity policy in the words of the specification: minimum
    length 8, at least one lowercase, one uppercase and one digit
    character. *)
Definition has_char (lo hi : nat) (s : string) : Prop :=
  ∃ c, c ∈ list_ascii_of_string s ∧ (lo ≤ nat_of_ascii c ≤ hi)%nat.

Definition meets_policy (s : string) : Prop :=
  (8 ≤ String.length s)%nat
  ∧ has_char 97 122 s ∧ has_char 65 90 s ∧ has_char 48 57 s.

(** What jsonwebtoken promises about its own tokens: a token is a
    non-empty string, and until its expiry [jwt.verify] with the signing
    secret returns the payload with [iat] and [exp] in seconds. *)
Definition jsonwebtoken_contract (L : libraries) : Prop :=
  ∀ subject secret expiresIn clock,
    sign L subject secret expiresIn clock ≠ ""
    ∧ ∀ clock', (clock' / 1000 < clock / 1000 + expiresIn)%N →
        verify L (sign L subject secret expiresIn clock) secret clock'
        = Decoded (mkDecoded subject (clock / 1000) (clock / 1000 + expiresIn)).

(** A bearer token as it travels in a header or a body: a non-empty string
    without spaces. *)
Definition bearer (token : string) : Prop :=
  token ≠ "" ∧ " "%char ∉ list_ascii_of_string token.

(** A verification path tells an expired token from an invalid one when it
    answers the two differently. *)
Definition distinguishes_expiry (L : libraries) (cfg : config) (e : env)
    (path : string → response) : Prop :=
  ∀ expired invalid,
    bearer expired → bearer invalid →
    verify L expired (jwt_secret cfg) (now e) = VerifyError TokenExpiredError →
    verify L invalid (jwt_secret cfg) (now e) = VerifyError JsonWebTokenError →
    path expired ≠ path invalid.

(** The two verification paths, as functions of the presented token. *)
Definition authenticate_path (L : libraries) (cfg : config) (e : env)
    (token : string) : response :=
  match authenticate L cfg e (Some ("Bearer " +:+ token)) [] with
  | (Value _, _, _) => NextHandler
  | (Responded r, _, _) => r
  | (Raised err, _, _) => Next err
  end.

Definition refresh_path (L : libraries) (cfg : config) (e : env)
    (token : string) : response :=
  (exec (refreshToken L cfg e (Some token)) []).1.1.

(** Lookup by external id first: whenever a record of the array carries
    the asserted subject id, the lookup resolves that record. *)
Definition resolves_by_id_first (users : list user) (googleId email : string)
  : Prop :=
  ∀ u, u ∈ users → User.googleId u = Some googleId →
       ∃ i, findGoogleUser googleId email users = Some (i, u).

(** The record a Google sign-in links: the asserted subject id is written
    to [googleId] and [updatedAt] is stamped. *)
Definition link (e : env) (payload : TokenPayload) (u : user) : user :=
  set_updatedAt (now e) (set_googleId (sub payload) u).

(** The handlers that sign a user in with Google. *)
Definition is_social_signin (op : operation) : bool :=
  match op with
  | GoogleCallback _ | GoogleAuth _ => true
  | _ => false
  end.

(** [x] is the first element of [l] that satisfies [P], at index [i]: what
    [l.find(P)] and [l.findIndex(P)] return. *)
Definition first_match {A} (P : A → Prop) (l : list A) (i : nat) (x : A) : Prop :=
  l !! i = Some x ∧ P x ∧ ∀ j y, l !! j = Some y → j < i → ¬ P y.

(** ** The error handler of the application

    [err.statusCode || 500], [err.message || 'Internal Server Error'], and
    the stack only in development. *)

Record reply := mkReply {
  reply_status : nat;
  reply_success : bool;
  reply_message : string;
  reply_stack : bool;
}.

(** [err.statusCode]: an [ApiError] has one, an error thrown by a library
    does not. *)
Definition error_statusCode (err : error) : option nat :=
  match err with
  | ApiError c _ _ => Some c
  | Thrown _ => None
  end.

(** [err.message]: the text the error carries. *)
Definition error_message (err : error) : string :=
  match err with
  | ApiError _ m _ => m
  | Thrown m => m
  end.

Definition globalErrorHandler (development : bool) (err : error) : reply :=
  let statusCode :=
    match error_statusCode err with
    | Some 0%nat | None => StatusCodes.INTERNAL_SERVER_ERROR
    | Some c => c
    end in
  let message :=
    if String.eqb (error_message err) "" then "Internal Server Error"
    else error_message err in
  mkReply statusCode false message development.

(** ** The routes

    [trim] and [isEmail] belong to validator.js and are taken as
    parameters.  A validator sees a missing field as the empty string; the
    [trim] sanitizer of a chain replaces the field of the body, so the
    controller is handed the trimmed name. *)

Section Routes.
Context (L : libraries) (cfg : config).
Context (trim : string → string) (isEmail : string → bool).

Definition signupValidation (name email password : option string)
  : list validationError :=
  check "name" (Some (trim (default "" name))) notEmpty "Name is required"
  ++ check "email" email isEmail "Please provide a valid email"
  ++ passwordChain "password" password.

Definition signinValidation (email password : option string)
  : list validationError :=
  check "email" email isEmail "Please provide a valid email"
  ++ check "password" password notEmpty "Password is required".

(** The chains of [PUT /me] are [optional()]: a missing field is not
    validated. *)
Definition updateValidation (name email : option string) : list validationError :=
  match name with
  | None => []
  | Some n => check "name" (Some (trim n)) notEmpty "Name is required"
  end
  ++ match email with
     | None => []
     | Some m => check "email" (Some m) isEmail "Please provide a valid email"
     end.

Definition route_signup (e : env) (name email password : option string)
  : M response :=
  validateRequest (signupValidation name email password);;
  signup L cfg e (trim (default "" name)) (default "" email) (default "" password).

Definition route_signin (e : env) (email password : option string) : M response :=
  validateRequest (signinValidation email password);;
  signin L cfg e (default "" email) (default "" password).

Definition route_getCurrentUser (e : env) (authorization : option string)
  : M response :=
  userId ← authenticate L cfg e authorization;
  getCurrentUser userId.

Definition route_updateCurrentUser (e : env) (authorization name email : option string)
  : M response :=
  userId ← authenticate L cfg e authorization;
  validateRequest (updateValidation name email);;
  updateCurrentUser e userId (trim <$> name) email.

Definition route_deleteCurrentUser (e : env) (authorization : option string)
  : M response :=
  userId ← authenticate L cfg e authorization;
  deleteCurrentUser userId.

End Routes.

(** Stand-ins for [trim] and [isEmail] of validator.js on the scenario:
    leading spaces are dropped, and an email is a string with an [@]. *)
Module ReferenceValidator.

Fixpoint trim (s : string) : string :=
  match s with
  | String " " s' => trim s'
  | _ => s
  end.

Definition isEmail (s : string) : bool := matches (Ascii.eqb "@") s.

End ReferenceValidator.

(** ** Overlapping requests

    An [async] handler runs until its next [await], gives way to the event
    loop, and is resumed later on the array as it is then. *)

#[warnings="-register-all"] Inductive process :=
| Finished (r : response)
| Suspended (resume : list user → process * list user).

(** Run a suspended handler up to its next [await] or to its answer. *)
Definition resume (p : process) (users : list user) : process * list user :=
  match p with
  | Finished r => (Finished r, users)
  | Suspended k => k users
  end.

Section Overlapping.
Context (L : libraries) (cfg : config).

(** [signup], statement by statement, cut at [await bcrypt.genSalt(10)]
    and at [await bcrypt.hash(password, salt)]: the lookup runs before the
    first suspension, the push after the second. *)
Definition signup_async (e : env) (name email password : string)
    (users : list user) : process * list user :=
  match list_find (λ user, user.(User.email) = email) users with
  | Some _ =>
      (Finished (Next (createError StatusCodes.CONFLICT "Email already in use")),
       users)
  | None =>
      (Suspended (λ users,
         let salt := salt e in
         (Suspended (λ users,
            let hashedPassword := hash L password salt in
            let newUser : user :=
              mkUser (pretty (now e)) name email (Some hashedPassword) None None
                     "user" true None (now e) (now e) None in
            let token :=
              sign L (id newUser) (jwt_secret cfg) (jwt_expiresIn cfg) (now e) in
            let refreshToken :=
              sign L (id newUser) (jwt_secret cfg) (days 30) (now e) in
            (Finished (Json StatusCodes.CREATED
                         (Session (Some "User registered successfully")
                                  (omit_password newUser) token refreshToken)),
             users ++ [newUser])),
          users)),
       users)
  end.

(** The auth controller's array and the signups in flight. *)
Record server := mkServer {
  store : list user;
  pending : list process;
}.

(** What the event loop delivers: a new signup request, or the completion
    of the [await] the [k]-th signup in flight is suspended at. *)
Inductive event :=
| Arrives (e : env) (name email password : string)
| Resumes (k : nat).

Definition deliver (s : server) (ev : event) : server :=
  match ev with
  | Arrives e name email password =>
      match signup_async e name email password (store s) with
      | (p, users) => mkServer users (pending s ++ [p])
      end
  | Resumes k =>
      match pending s !! k with
      | Some p =>
          match resume p (store s) with
          | (p', users) => mkServer users (<[k := p']> (pending s))
          end
      | None => s
      end
  end.

Definition run_events (events : list event) (s : server) : server :=
  fold_left deliver events s.

(** The operation and the provider agree on [payload]: the credential (or
    the [id_token] of the code exchange) verifies to it. *)
Definition asserts (op : operation) (payload : TokenPayload) : Prop :=
  match op with
  | GoogleAuth (Some credential) =>
      credential ≠ "" ∧ verifyIdToken L credential = Some payload
  | GoogleCallback (Some code) =>
      code ≠ ""
      ∧ ∃ id_token, getToken L code = Some id_token
                    ∧ verifyIdToken L id_token = Some payload
  | _ => False
  end.

End Overlapping.

(** ** Further vocabulary *)

(** The hash [h] verifies the plaintext [plaintext] and no other. *)
Definition verifies_only (L : libraries) (h plaintext : string) : Prop :=
  ∀ attempt, compare L attempt h = bool_decide (attempt = plaintext).

(** What every record of the auth controller's array looks like. *)
Definition auth_record (u : user) : Prop :=
  isActive u = true ∧ role u = "user"
  ∧ (is_Some (User.password u) ∨ is_Some (googleId u)).

(** The clock readings of a sequence of requests go up strictly, starting
    at [bound] or later. *)
Fixpoint clocks_increase (bound : N) (reqs : list (env * operation)) : Prop :=
  match reqs with
  | [] => True
  | (e, _) :: reqs' => (bound ≤ now e)%N ∧ clocks_increase (now e + 1) reqs'
  end.

(** [pieces.join(sep)] for a one-character separator. *)
Fixpoint join (sep : ascii) (pieces : list string) : string :=
  match pieces with
  | [] => EmptyString
  | [piece] => piece
  | piece :: pieces' => piece +:+ String sep (join sep pieces')
  end.

(** What a record shows apart from its profile fields: an update of the
    profile leaves all of it alone. *)
Definition same_account (u v : user) : Prop :=
  User.id u = User.id v ∧ User.password u = User.password v
  ∧ googleId u = googleId v ∧ avatar u = avatar v ∧ role u = role v
  ∧ isActive u = isActive v ∧ emailVerified u = emailVerified v
  ∧ createdAt u = createdAt v ∧ lastLogin u = lastLogin v.

(** The payload of an answer shows the record [u], field by field. *)
Definition shows (p : userWithoutPassword) (u : user) : Prop :=
  id p = id u ∧ name p = name u ∧ User.email p = User.email u
  ∧ googleId p = googleId u ∧ avatar p = avatar u ∧ role p = role u
  ∧ isActive p = isActive u ∧ emailVerified p = emailVerified u
  ∧ createdAt p = createdAt u ∧ updatedAt p = updatedAt u
  ∧ lastLogin p = lastLogin u.

(** [u'] is [u] with [lastLogin] set to [t] and nothing else changed. *)
Definition login_stamped (t : timestamp) (u u' : user) : Prop :=
  lastLogin u' = Some t
  ∧ id u' = id u ∧ name u' = name u ∧ User.email u' = User.email u
  ∧ User.password u' = User.password u ∧ googleId u' = googleId u
  ∧ avatar u' = avatar u ∧ role u' = role u ∧ isActive u' = isActive u
  ∧ emailVerified u' = emailVerified u ∧ createdAt u' = createdAt u
  ∧ updatedAt u' = updatedAt u.

(** [u'] is [u] with [googleId] set to [g], [updatedAt] set to [t] and
    nothing else changed. *)
Definition google_linked (g : string) (t : timestamp) (u u' : user) : Prop :=
  googleId u' = Some g ∧ updatedAt u' = t
  ∧ id u' = id u ∧ name u' = name u ∧ User.email u' = User.email u
  ∧ User.password u' = User.password u ∧ avatar u' = avatar u
  ∧ role u' = role u ∧ isActive u' = isActive u
  ∧ emailVerified u' = emailVerified u ∧ createdAt u' = createdAt u
  ∧ lastLogin u' = lastLogin u.

(** * Properties *)

Lemma first_match_find {A} (P : A → Prop) `{∀ x, Decision (P x)} l i x :
  first_match P l i x → list_find P l = Some (i, x).
Proof. unfold first_match. by rewrite list_find_Some. Qed.

Lemma find_first_match {A} (P : A → Prop) `{∀ x, Decision (P x)} l i x :
  list_find P l = Some (i, x) → first_match P l i x.
Proof. unfold first_match. by rewrite list_find_Some. Qed.

Lemma no_match_find {A} (P : A → Prop) `{∀ x, Decision (P x)} (l : list A) :
  (∀ x, x ∈ l → ¬ P x) → list_find P l = None.
Proof. by rewrite list_find_None, Forall_forall. Qed.

Lemma alter_insert {A} (f : A → A) (l : list A) i x :
  l !! i = Some x → alter f i l = <[i := f x]> l.
Proof.
  intros Hi. apply list_eq. intros j.
  destruct (decide (i = j)) as [->|Hne].
  - rewrite list_lookup_alter_eq, Hi. simpl.
    symmetry. apply list_lookup_insert_eq. by eapply lookup_lt_Some.
  - by rewrite list_lookup_alter_ne, list_lookup_insert_ne.
Qed.

(** Unfolding a handler down to the array and the libraries. *)
Ltac run :=
  unfold exec, try_catch, mbind, M_bind, bind, mret, M_ret, ret, respond, throw,
    get_users, put_users, log;
  simpl.

(** ** The scenario of the specification

    signup("Ann", "ann@x.com", "Abcd1234") succeeds with status 201 and a
    payload without password; a second signup with the same email is a
    Conflict; signin with a wrong password is Unauthorized; signin with the
    right one succeeds and sets [lastLogin]. *)

Example scenario_signup :
  exec (signup Reference.libs Scenario.cfg Scenario.e1 "Ann" "ann@x.com" "Abcd1234")
    []
  = (Json 201
       (Session (Some "User registered successfully") (omit_password Scenario.ann)
          Scenario.annAccess Scenario.annRefresh),
     [Scenario.ann],
     [BcryptGenSalt 10; BcryptHash "Abcd1234" "s1";
      JwtSign "1000" (days 7); JwtSign "1000" (days 30)]).
Proof. reflexivity. Qed.

Example scenario_second_signup :
  exec (signup Reference.libs Scenario.cfg Scenario.e2 "Ann" "ann@x.com" "Abcd1234")
    [Scenario.ann]
  = (Next (ApiError 409 "Email already in use" []), [Scenario.ann], []).
Proof. reflexivity. Qed.

Example scenario_signin_wrong_password :
  (exec (signin Reference.libs Scenario.cfg Scenario.e2 "ann@x.com" "wrong")
     [Scenario.ann]).1
  = (Next (ApiError 401 "Invalid credentials" []), [Scenario.ann]).
Proof. reflexivity. Qed.

Example scenario_signin :
  (exec (signin Reference.libs Scenario.cfg Scenario.e2 "ann@x.com" "Abcd1234")
     [Scenario.ann]).1.2
  = [set_lastLogin 2000 Scenario.ann].
Proof. reflexivity. Qed.

Section SigninProperties.
Context (L : libraries) (cfg : config).
Implicit Types (e : env) (users : list user).

Lemma signin_absent e email password users :
  (∀ u, u ∈ users → User.email u ≠ email) →
  exec (signin L cfg e email password) users
  = (Next (createError StatusCodes.UNAUTHORIZED "Invalid credentials"), users, []).
Proof.
  intros Habsent. pose proof (no_match_find _ _ Habsent) as Hnone.
  unfold signin. run. by rewrite Hnone.
Qed.

Lemma signin_deactivated e email password users i user :
  first_match (λ u, User.email u = email) users i user →
  isActive user = false →
  exec (signin L cfg e email password) users
  = (Next (createError StatusCodes.FORBIDDEN "Account is deactivated"), users, []).
Proof.
  intros Hfind%(first_match_find _) Hinactive.
  unfold signin. run. by rewrite Hfind, Hinactive.
Qed.

Lemma signin_mismatch e email password users i user h :
  first_match (λ u, User.email u = email) users i user →
  isActive user = true →
  User.password user = Some h →
  compare L password h = false →
  exec (signin L cfg e email password) users
  = (Next (createError StatusCodes.UNAUTHORIZED "Invalid credentials"), users,
     [BcryptCompare password (Some h)]).
Proof.
  intros Hfind%(first_match_find _) Hactive Hhash Hcmp.
  unfold signin, bcrypt_compare. run.
  by rewrite Hfind, Hactive, Hhash, Hcmp.
Qed.

Lemma signin_success e email password users i user h :
  first_match (λ u, User.email u = email) users i user →
  isActive user = true →
  User.password user = Some h →
  compare L password h = true →
  exec (signin L cfg e email password) users
  = (Json StatusCodes.OK
       (Session (Some "Logged in successfully") (omit_password user)
          (sign L (id user) (jwt_secret cfg) (jwt_expiresIn cfg) (now e))
          (sign L (id user) (jwt_secret cfg) (days 30) (now e))),
     <[i := set_lastLogin (now e) user]> users,
     [BcryptCompare password (Some h);
      JwtSign (id user) (jwt_expiresIn cfg); JwtSign (id user) (days 30)]).
Proof.
  intros Hfind Hactive Hhash Hcmp.
  pose proof Hfind as (Hi & _).
  apply (first_match_find _) in Hfind.
  unfold signin, bcrypt_compare, generateToken, signRefreshToken, jwt_sign. run.
  rewrite Hfind, Hactive, Hhash, Hcmp. simpl.
  by rewrite (alter_insert _ _ _ _ Hi).
Qed.

(** A record without a password hash (an account created by the Google
    sign-in stores [password: null]): [bcrypt.compare] rejects and the
    handler passes the library error on to [next]. *)
Lemma signin_without_hash e email password users i user :
  first_match (λ u, User.email u = email) users i user →
  isActive user = true →
  User.password user = None →
  exec (signin L cfg e email password) users
  = (Next (Thrown "Illegal arguments: string, object"), users,
     [BcryptCompare password None]).
Proof.
  intros Hfind%(first_match_find _) Hactive Hhash.
  unfold signin, bcrypt_compare. run.
  by rewrite Hfind, Hactive, Hhash.
Qed.

(** The outcomes of a signin on a record that stores a hash: when no record
    carries the email the answer is Unauthorized; when the record found is
    not active the answer is Forbidden, whatever the password, and
    [bcrypt.compare] is not even called; when the password does not match
    the stored hash the answer is Unauthorized; when it matches, the
    request succeeds, [lastLogin] is stamped on the record in the array,
    and the user (without password) is returned with an access and a
    refresh token.  The array is left as it was in the three failing
    cases. *)
Theorem signin_outcomes e email password users :
  ((∀ u, u ∈ users → User.email u ≠ email) →
   exec (signin L cfg e email password) users
   = (Next (createError StatusCodes.UNAUTHORIZED "Invalid credentials"), users, []))
  ∧ ∀ i user,
      first_match (λ u, User.email u = email) users i user →
      (isActive user = false →
       exec (signin L cfg e email password) users
       = (Next (createError StatusCodes.FORBIDDEN "Account is deactivated"),
          users, []))
      ∧ ∀ h,
          isActive user = true →
          User.password user = Some h →
          (compare L password h = false →
           exec (signin L cfg e email password) users
           = (Next (createError StatusCodes.UNAUTHORIZED "Invalid credentials"),
              users, [BcryptCompare password (Some h)]))
          ∧ (compare L password h = true →
             exec (signin L cfg e email password) users
             = (Json StatusCodes.OK
                  (Session (Some "Logged in successfully") (omit_password user)
                     (sign L (id user) (jwt_secret cfg) (jwt_expiresIn cfg) (now e))
                     (sign L (id user) (jwt_secret cfg) (days 30) (now e))),
                <[i := set_lastLogin (now e) user]> users,
                [BcryptCompare password (Some h);
                 JwtSign (id user) (jwt_expiresIn cfg);
                 JwtSign (id user) (days 30)])).
Proof.
  split; [apply signin_absent|].
  intros i user Hfind. split; [by apply (signin_deactivated _ _ _ _ i user)|].
  intros h Hactive Hhash. split.
  - by apply (signin_mismatch _ _ _ _ i user).
  - by apply signin_success.
Qed.

End SigninProperties.

(** The four outcomes on the scenario: an unknown email, Bob's deactivated
    account with his correct password, Ann with a wrong password, Ann with
    her password. *)
Lemma signin_outcomes_witness :
  let L := Reference.libs in
  let users := [Scenario.ann; Scenario.bob] in
  exec (signin L Scenario.cfg Scenario.e2 "eve@x.com" "Abcd1234") users
  = (Next (ApiError 401 "Invalid credentials" []), users, [])
  ∧ exec (signin L Scenario.cfg Scenario.e2 "bob@x.com" "Bobs4Pass") users
    = (Next (ApiError 403 "Account is deactivated" []), users, [])
  ∧ exec (signin L Scenario.cfg Scenario.e2 "ann@x.com" "wrong") users
    = (Next (ApiError 401 "Invalid credentials" []), users,
       [BcryptCompare "wrong" (Some "s1$Abcd1234")])
  ∧ (exec (signin L Scenario.cfg Scenario.e2 "ann@x.com" "Abcd1234") users).1.2
    = [set_lastLogin 2000 Scenario.ann; Scenario.bob].
Proof.
  intros L users. split; [|split; [|split]].
  - apply (proj1 (signin_outcomes L Scenario.cfg Scenario.e2 "eve@x.com"
                    "Abcd1234" users)).
    intros u Hu. apply list_elem_of_In in Hu.
    destruct Hu as [<-|[<-|[]]]; discriminate.
  - destruct (signin_outcomes L Scenario.cfg Scenario.e2 "bob@x.com"
                "Bobs4Pass" users) as [_ H].
    destruct (H 1%nat Scenario.bob) as [Hforbidden _].
    { apply (find_first_match _). reflexivity. }
    apply Hforbidden. reflexivity.
  - destruct (signin_outcomes L Scenario.cfg Scenario.e2 "ann@x.com"
                "wrong" users) as [_ H].
    destruct (H 0%nat Scenario.ann) as [_ Hactive].
    { apply (find_first_match _). reflexivity. }
    destruct (Hactive "s1$Abcd1234" eq_refl eq_refl) as [Hmismatch _].
    apply Hmismatch. reflexivity.
  - destruct (signin_outcomes L Scenario.cfg Scenario.e2 "ann@x.com"
                "Abcd1234" users) as [_ H].
    destruct (H 0%nat Scenario.ann) as [_ Hactive].
    { apply (find_first_match _). reflexivity. }
    destruct (Hactive "s1$Abcd1234" eq_refl eq_refl) as [_ Hmatch].
    rewrite Hmatch; reflexivity.
Defined.

(** C1. Signin has an outcome that is none of the four.  Ann signs up and
    Gia signs in through [googleCallback], which stores her record with
    [password: null].  A signin with Gia's email then finds her record,
    which is active; [bcrypt.compare] is called with the null hash and
    rejects, and the handler passes the library error to [next], whatever
    password is supplied: the answer is neither Unauthorized nor Forbidden
    nor a success, the error handler of the application turns it into a
    500, and [lastLogin] is not stamped. *)
Theorem signin_google_account_outside_outcomes :
  ∃ a,
    a = serve Reference.libs Scenario.cfg
          [(Scenario.e1, Signup "Ann" "ann@x.com" "Abcd1234");
           (Scenario.e2, GoogleCallback (Some "code:g-gia|gia@x.com"))] boot
    ∧ authUsers a = [Scenario.ann; Scenario.gia]
    ∧ first_match (λ u, User.email u = "gia@x.com") (authUsers a) 1 Scenario.gia
    ∧ isActive Scenario.gia = true
    ∧ User.password Scenario.gia = None
    ∧ ∀ password,
        handle Reference.libs Scenario.cfg Scenario.e3
          (Signin "gia@x.com" password) a
        = (Next (Thrown "Illegal arguments: string, object"), a)
        ∧ exec (signin Reference.libs Scenario.cfg Scenario.e3 "gia@x.com"
                  password) (authUsers a)
          = (Next (Thrown "Illegal arguments: string, object"), authUsers a,
             [BcryptCompare password None])
        ∧ reply_status
            (globalErrorHandler false (Thrown "Illegal arguments: string, object"))
          = StatusCodes.INTERNAL_SERVER_ERROR.
Proof.
  eexists. split; [reflexivity|]. split; [reflexivity|].
  split; [by apply (find_first_match _)|]. split; [reflexivity|].
  split; [reflexivity|].
  intros password. split; [|split]; reflexivity.
Qed.

(** ** Changing a password *)

Lemma matches_has_char lo hi s :
  matches (in_range lo hi) s = true
  ↔ has_char (nat_of_ascii lo) (nat_of_ascii hi) s.
Proof.
  unfold has_char. induction s as [|c s IH]; simpl.
  - split; [discriminate|]. intros (c & Hc & _). by apply elem_of_nil in Hc.
  - rewrite orb_true_iff, IH. clear IH. split.
    + intros [Hc|(c' & Hin & Hc')].
      * exists c. split; [left|].
        unfold in_range in Hc. apply andb_true_iff in Hc as [Hlo Hhi].
        apply N.leb_le in Hlo, Hhi. unfold nat_of_ascii. lia.
      * exists c'. split; [by right|done].
    + intros (c' & Hin & Hc'). apply elem_of_cons in Hin as [->|Hin].
      * left. unfold in_range. apply andb_true_iff.
        rewrite !N.leb_le. unfold nat_of_ascii in Hc'. lia.
      * right. by exists c'.
Qed.

(** The chain of the route reports no error exactly on the passwords that
    meet the policy. *)
Lemma passwordChain_checks field s :
  passwordChain field (Some s) = []
  ↔ isLength_min 8 s = true ∧ matches lowercase s = true
    ∧ matches uppercase s = true ∧ matches digit s = true.
Proof.
  cbv [passwordChain check default from_option Datatypes.id].
  destruct (isLength_min 8 s), (matches lowercase s), (matches uppercase s),
    (matches digit s); simpl; split; try done;
    try (by intros (? & ? & ? & ?)).
Qed.

Lemma passwordChain_policy field s :
  passwordChain field (Some s) = [] ↔ meets_policy s.
Proof.
  rewrite passwordChain_checks. unfold meets_policy, isLength_min.
  rewrite Nat.leb_le.
  pose proof (matches_has_char "a" "z" s) as Hlower.
  pose proof (matches_has_char "A" "Z" s) as Hupper.
  pose proof (matches_has_char "0" "9" s) as Hdigit.
  unfold lowercase, uppercase, digit. tauto.
Qed.


Section PasswordProperties.
Context (L : libraries) (cfg : config).
Implicit Types (e : env) (users : list user).

(** The middleware leaves the array alone, calls nothing but [jwt.verify],
    and either sets [req.userId] or answers Unauthorized. *)
Lemma authenticate_cases e authorization users :
  ∃ o l,
    authenticate L cfg e authorization users = (o, users, l)
    ∧ (∀ c, c ∈ l → ∃ t, c = JwtVerify t)
    ∧ ((∃ userId, o = Value userId)
       ∨ ∃ m, o = Responded (Next (createError StatusCodes.UNAUTHORIZED m))).
Proof.
  assert (Hnil : ∀ c : call, c ∈ [] → ∃ t, c = JwtVerify t)
    by (intros c Hc; by apply elem_of_nil in Hc).
  assert (Hone : ∀ t (c : call), c ∈ [JwtVerify t] → ∃ t, c = JwtVerify t)
    by (intros t c Hc; apply list_elem_of_singleton in Hc; eauto).
  assert (Hdone : ∀ (o : outcome string) (l : list call),
             (∀ c, c ∈ l → ∃ t, c = JwtVerify t) →
             ((∃ userId, o = Value userId)
              ∨ ∃ m, o = Responded (Next (createError StatusCodes.UNAUTHORIZED m))) →
             ∃ o' (l' : list call), (o, users, l) = (o', users, l')
               ∧ (∀ c, c ∈ l' → ∃ t, c = JwtVerify t)
               ∧ ((∃ userId, o' = Value userId)
                  ∨ ∃ m, o' = Responded
                                (Next (createError StatusCodes.UNAUTHORIZED m))))
    by (intros o l ? ?; by exists o, l).
  unfold authenticate, jwt_verify, try_catch, mbind, M_bind, bind, mret, M_ret,
    ret, respond, log.
  destruct authorization as [[|c s]|]; [apply Hdone; eauto| |apply Hdone; eauto].
  destruct (String.prefix "Bearer " (String c s)); cbn [negb];
    [|apply Hdone; eauto].
  destruct (split " " (String c s) !! 1%nat) as [[|c' t]|];
    [apply Hdone; eauto| |apply Hdone; eauto].
  destruct (verify L (String c' t) (jwt_secret cfg) (now e)) as [d|err]; simpl.
  - apply Hdone; eauto.
  - destruct (jwt_error_name err =? "TokenExpiredError")%string; simpl;
      apply Hdone; eauto.
Qed.

(** C8. A [changePassword] whose current password does not match the
    stored hash answers 401 "Current password is incorrect"; the array, and
    with it the stored hash, [updatedAt] and every other field of the
    record, is what it was, and nothing was hashed. *)
Theorem changePassword_wrong_current e userId currentPassword newPassword
    users i user h :
  first_match (λ u, User.id u = userId) users i user →
  User.password user = Some h →
  compare L currentPassword h = false →
  exec (changePassword L e userId currentPassword newPassword) users
  = (Next (createError StatusCodes.UNAUTHORIZED "Current password is incorrect"),
     users, [BcryptCompare currentPassword (Some h)]).
Proof.
  intros Hfind%(first_match_find _) Hhash Hcmp.
  unfold changePassword, bcrypt_compare. run.
  by rewrite Hfind, Hhash, Hcmp.
Qed.

(** With the right current password the controller hashes whatever new
    password it is given and stores the hash: it checks no policy. *)
Lemma changePassword_replaces_hash e userId currentPassword newPassword
    users i user h :
  first_match (λ u, User.id u = userId) users i user →
  User.password user = Some h →
  compare L currentPassword h = true →
  exec (changePassword L e userId currentPassword newPassword) users
  = (Json StatusCodes.OK (Message true "Password changed successfully"),
     <[i := set_updatedAt (now e)
              (set_password (hash L newPassword (salt e)) user)]> users,
     [BcryptCompare currentPassword (Some h); BcryptGenSalt 10;
      BcryptHash newPassword (salt e)]).
Proof.
  intros Hfind%(first_match_find _) Hhash Hcmp.
  unfold changePassword, bcrypt_compare, bcrypt_genSalt, bcrypt_hash. run.
  by rewrite Hfind, Hhash, Hcmp.
Qed.


End PasswordProperties.

(** Ann's password is not replaced when the current password is wrong. *)
Lemma changePassword_wrong_current_witness :
  exec (changePassword Reference.libs Scenario.e2 "1000" "wrong" "Efgh5678")
    [Scenario.ann; Scenario.bob]
  = (Next (ApiError 401 "Current password is incorrect" []),
     [Scenario.ann; Scenario.bob],
     [BcryptCompare "wrong" (Some "s1$Abcd1234")]).
Proof.
  apply (changePassword_wrong_current Reference.libs Scenario.e2 "1000" "wrong"
           "Efgh5678" [Scenario.ann; Scenario.bob] 0 Scenario.ann "s1$Abcd1234").
  - apply (find_first_match _). reflexivity.
  - reflexivity.
  - reflexivity.
Defined.



(** ** Tokens *)

Lemma split_no_separator sep t :
  sep ∉ list_ascii_of_string t → split sep t = [t].
Proof.
  induction t as [|c t IH]; simpl; [done|].
  intros Hsep. apply not_elem_of_cons in Hsep as [Hc Ht].
  destruct (Ascii.eqb_spec c sep) as [->|_]; [done|].
  by rewrite (IH Ht).
Qed.

Section TokenProperties.
Context (L : libraries) (cfg : config).
Implicit Types (e : env) (users : list user).

(** What the middleware does with a bearer token. *)
Lemma authenticate_bearer e token users :
  bearer token →
  authenticate L cfg e (Some ("Bearer " +:+ token)) users
  = (match verify L token (jwt_secret cfg) (now e) with
     | Decoded d => Value (userId d)
     | VerifyError TokenExpiredError =>
         Responded (Next (createError StatusCodes.UNAUTHORIZED "Token expired"))
     | VerifyError _ =>
         Responded (Next (createError StatusCodes.UNAUTHORIZED "Invalid token"))
     end, users, [JwtVerify token]).
Proof.
  intros [Hnonempty Hspace].
  unfold authenticate, jwt_verify. run.
  change ("" +:+ token) with token.
  rewrite (split_no_separator _ _ Hspace). simpl.
  destruct token as [|c t]; [done|].
  by destruct (verify L (String c t) (jwt_secret cfg) (now e)) as [d|[]].
Qed.

Lemma refreshToken_verified e token users d :
  token ≠ "" →
  verify L token (jwt_secret cfg) (now e) = Decoded d →
  exec (refreshToken L cfg e (Some token)) users
  = (Json StatusCodes.OK
       (AccessToken (sign L (userId d) (jwt_secret cfg) (jwt_expiresIn cfg) (now e))),
     users, [JwtVerify token; JwtSign (userId d) (jwt_expiresIn cfg)]).
Proof.
  intros Hnonempty Hverify. destruct token as [|c t]; [done|].
  unfold refreshToken, jwt_verify, generateToken, jwt_sign. run.
  by rewrite Hverify.
Qed.

Lemma refreshToken_rejected e token users err :
  token ≠ "" →
  verify L token (jwt_secret cfg) (now e) = VerifyError err →
  exec (refreshToken L cfg e (Some token)) users
  = (Next (createError StatusCodes.FORBIDDEN "Invalid refresh token"), users,
     [JwtVerify token]).
Proof.
  intros Hnonempty Hverify. destruct token as [|c t]; [done|].
  unfold refreshToken, jwt_verify. run.
  by rewrite Hverify.
Qed.

(** C7. For every refresh request that supplies a token: when the token
    fails verification, for whatever reason, the answer is Forbidden and no
    token is signed; when it verifies, the answer carries one access token
    and nothing else, signed for the [userId] of the presented token with
    the access-token lifetime, and that is the only [jwt.sign] of the
    request: no refresh token is issued. *)
Theorem refreshToken_outcomes e token users :
  token ≠ "" →
  (∀ err,
     verify L token (jwt_secret cfg) (now e) = VerifyError err →
     exec (refreshToken L cfg e (Some token)) users
     = (Next (createError StatusCodes.FORBIDDEN "Invalid refresh token"), users,
        [JwtVerify token]))
  ∧ (∀ d,
       verify L token (jwt_secret cfg) (now e) = Decoded d →
       exec (refreshToken L cfg e (Some token)) users
       = (Json StatusCodes.OK
            (AccessToken
               (sign L (userId d) (jwt_secret cfg) (jwt_expiresIn cfg) (now e))),
          users, [JwtVerify token; JwtSign (userId d) (jwt_expiresIn cfg)])).
Proof.
  intros Hnonempty. split.
  - intros err. by apply refreshToken_rejected.
  - intros d. by apply refreshToken_verified.
Qed.

(** C6, as the code has it.  The authentication middleware answers an
    expired token with 401 "Token expired" and an invalid one with 401
    "Invalid token", so it tells them apart; the refresh endpoint answers
    both with the same 403 "Invalid refresh token". *)
Theorem expiry_distinguished_by_middleware_only e expired invalid :
  bearer expired → bearer invalid →
  verify L expired (jwt_secret cfg) (now e) = VerifyError TokenExpiredError →
  verify L invalid (jwt_secret cfg) (now e) = VerifyError JsonWebTokenError →
  authenticate_path L cfg e expired
  = Next (createError StatusCodes.UNAUTHORIZED "Token expired")
  ∧ authenticate_path L cfg e invalid
    = Next (createError StatusCodes.UNAUTHORIZED "Invalid token")
  ∧ authenticate_path L cfg e expired ≠ authenticate_path L cfg e invalid
  ∧ refresh_path L cfg e expired
    = Next (createError StatusCodes.FORBIDDEN "Invalid refresh token")
  ∧ refresh_path L cfg e invalid = refresh_path L cfg e expired.
Proof.
  intros Hexpired Hinvalid Hverify1 Hverify2.
  unfold authenticate_path, refresh_path.
  rewrite !authenticate_bearer, Hverify1, Hverify2 by done.
  rewrite (refreshToken_rejected _ _ _ _ (proj1 Hexpired) Hverify1).
  rewrite (refreshToken_rejected _ _ _ _ (proj1 Hinvalid) Hverify2).
  by repeat split.
Qed.

(** C9. [generateToken] and the refresh-token issuer call [jwt.sign] with
    the same payload [{ userId }] and the same secret; only the lifetime
    differs.  Given what jsonwebtoken promises about its own tokens, an
    access token that has not expired is accepted by the refresh endpoint,
    which answers it exactly as it answers the refresh token issued with
    it: with a new access token for the same [userId]. *)
Theorem access_token_accepted_as_refresh_token e e' userId users :
  jsonwebtoken_contract L →
  (now e' / 1000 < now e / 1000 + jwt_expiresIn cfg)%N →
  let access := sign L userId (jwt_secret cfg) (jwt_expiresIn cfg) (now e) in
  let refresh := sign L userId (jwt_secret cfg) (days 30) (now e) in
  generateToken L cfg e userId users
  = (Value access, users, [JwtSign userId (jwt_expiresIn cfg)])
  ∧ signRefreshToken L cfg e userId users
    = (Value refresh, users, [JwtSign userId (days 30)])
  ∧ exec (refreshToken L cfg e' (Some access)) users
    = (Json StatusCodes.OK
         (AccessToken
            (sign L userId (jwt_secret cfg) (jwt_expiresIn cfg) (now e'))),
       users, [JwtVerify access; JwtSign userId (jwt_expiresIn cfg)])
  ∧ ((now e' / 1000 < now e / 1000 + days 30)%N →
     (exec (refreshToken L cfg e' (Some refresh)) users).1
     = (exec (refreshToken L cfg e' (Some access)) users).1).
Proof.
  intros Hjwt Hfresh access refresh.
  destruct (Hjwt userId (jwt_secret cfg) (jwt_expiresIn cfg) (now e))
    as [Haccess Hverify].
  specialize (Hverify _ Hfresh).
  split; [done|]. split; [done|]. split.
  - by rewrite (refreshToken_verified _ _ _ _ Haccess Hverify).
  - intros Hfresh'.
    destruct (Hjwt userId (jwt_secret cfg) (days 30) (now e))
      as [Hrefresh Hverify'].
    specialize (Hverify' _ Hfresh').
    rewrite (refreshToken_verified _ _ _ _ Haccess Hverify).
    by rewrite (refreshToken_verified _ _ _ _ Hrefresh Hverify').
Qed.

End TokenProperties.

(** ** The reference libraries keep the promises of jsonwebtoken *)

Module ReferenceFacts.
Import Reference.

Lemma read_write_positive p r :
  read_positive (write_positive p +:+ r) = Some (p, r).
Proof. induction p as [p IH|p IH|]; simpl; by rewrite ?IH. Qed.

Lemma read_write_N n r : read_N (write_N n +:+ r) = Some (n, r).
Proof. destruct n as [|p]; simpl; [done|]. by rewrite read_write_positive. Qed.

Lemma take_string_app s r :
  take_string (String.length s) (s +:+ r) = Some (s, r).
Proof. induction s as [|c s IH]; simpl; [by destruct r|]. by rewrite IH. Qed.

Lemma write_N_nonempty n r : write_N n +:+ r ≠ "".
Proof. by destruct n. Qed.

Lemma parse_sign subject secret expiresIn clock :
  parse (sign subject secret expiresIn clock)
  = Some ((clock / 1000)%N, (clock / 1000 + expiresIn)%N, secret, subject).
Proof.
  unfold parse, sign. rewrite read_write_N. simpl.
  rewrite read_write_N. simpl. rewrite read_write_N. simpl.
  rewrite Nat2N.id, take_string_app. done.
Qed.

Lemma contract : jsonwebtoken_contract libs.
Proof.
  intros subject secret expiresIn clock. split.
  - apply write_N_nonempty.
  - intros clock' Hfresh. simpl. unfold verify. rewrite parse_sign.
    rewrite String.eqb_refl. simpl.
    destruct (N.leb_spec (clock / 1000 + expiresIn) (clock' / 1000)); [lia|done].
Qed.

End ReferenceFacts.

(** ** The token properties on the scenario *)

(** At [e2] the one-second token has expired and the forged one fails the
    signature check; the refresh endpoint turns both away with Forbidden,
    and answers Ann's refresh token with one new access token. *)
Lemma refreshToken_outcomes_witness :
  exec (refreshToken Reference.libs Scenario.cfg Scenario.e2 (Some Scenario.stale)) []
  = (Next (ApiError 403 "Invalid refresh token" []), [],
     [JwtVerify Scenario.stale])
  ∧ exec (refreshToken Reference.libs Scenario.cfg Scenario.e2
            (Some Scenario.annRefresh)) []
    = (Json 200 (AccessToken
                   (Reference.sign "1000" (jwt_secret Scenario.cfg) (days 7) 2000)),
       [], [JwtVerify Scenario.annRefresh; JwtSign "1000" (days 7)]).
Proof.
  split.
  - apply (proj1 (refreshToken_outcomes Reference.libs Scenario.cfg Scenario.e2
                    Scenario.stale [] ltac:(discriminate)) TokenExpiredError).
    reflexivity.
  - apply (proj2 (refreshToken_outcomes Reference.libs Scenario.cfg Scenario.e2
                    Scenario.annRefresh [] ltac:(discriminate))
             (mkDecoded "1000" 1 (1 + days 30))).
    reflexivity.
Defined.

Lemma scenario_tokens_bearer :
  bearer Scenario.stale ∧ bearer Scenario.forged.
Proof.
  split; (split; [discriminate|]); vm_compute; intros Hin;
    repeat (apply elem_of_cons in Hin as [Hin|Hin]; [discriminate|]);
    by apply elem_of_nil in Hin.
Qed.

(** C6 as stated fails on the refresh endpoint: an expired token and a
    token with a bad signature get the same answer there. *)
Lemma refresh_path_conflates_expiry :
  ¬ distinguishes_expiry Reference.libs Scenario.cfg Scenario.e2
      (refresh_path Reference.libs Scenario.cfg Scenario.e2).
Proof.
  intros Hdistinguishes.
  apply (Hdistinguishes Scenario.stale Scenario.forged);
    try apply scenario_tokens_bearer; reflexivity.
Qed.

Lemma expiry_distinguished_by_middleware_only_witness :
  authenticate_path Reference.libs Scenario.cfg Scenario.e2 Scenario.stale
  = Next (ApiError 401 "Token expired" [])
  ∧ authenticate_path Reference.libs Scenario.cfg Scenario.e2 Scenario.forged
    = Next (ApiError 401 "Invalid token" [])
  ∧ refresh_path Reference.libs Scenario.cfg Scenario.e2 Scenario.forged
    = refresh_path Reference.libs Scenario.cfg Scenario.e2 Scenario.stale.
Proof.
  destruct (expiry_distinguished_by_middleware_only Reference.libs Scenario.cfg
              Scenario.e2 Scenario.stale Scenario.forged)
    as (Hexpired & Hinvalid & _ & _ & Hsame).
  - apply scenario_tokens_bearer.
  - apply scenario_tokens_bearer.
  - reflexivity.
  - reflexivity.
  - auto.
Defined.

(** Ann's access token, presented to the refresh endpoint one second after
    it was minted, is answered like her refresh token. *)
Lemma access_token_accepted_as_refresh_token_witness :
  exec (refreshToken Reference.libs Scenario.cfg Scenario.e2
          (Some Scenario.annAccess)) []
  = (Json 200 (AccessToken
                 (Reference.sign "1000" (jwt_secret Scenario.cfg) (days 7) 2000)),
     [], [JwtVerify Scenario.annAccess; JwtSign "1000" (days 7)]).
Proof.
  destruct (access_token_accepted_as_refresh_token Reference.libs Scenario.cfg
              Scenario.e1 Scenario.e2 "1000" [])
    as (_ & _ & Haccepted & _).
  - exact ReferenceFacts.contract.
  - reflexivity.
  - exact Haccepted.
Defined.

(** ** Google identity reconciliation *)

Section ReconciliationProperties.
Context (L : libraries) (cfg : config).
Implicit Types (e : env) (users : list user) (payload : TokenPayload).

(** The three ways the shared block ends. *)
Lemma findOrCreateUser_created e payload users :
  findGoogleUser (sub payload) (payload_email payload) users = None →
  findOrCreateUser e payload users
  = (Value (mkUser (pretty (now e)) (payload_name payload) (payload_email payload)
              None (Some (sub payload)) (picture payload) "user" true (Some true)
              (now e) (now e) None),
     users ++ [mkUser (pretty (now e)) (payload_name payload) (payload_email payload)
                 None (Some (sub payload)) (picture payload) "user" true (Some true)
                 (now e) (now e) None],
     []).
Proof. intros Hfind. unfold findOrCreateUser. run. by rewrite Hfind. Qed.

Lemma findOrCreateUser_linked e payload users i u :
  findGoogleUser (sub payload) (payload_email payload) users = Some (i, u) →
  truthy (googleId u) = false →
  findOrCreateUser e payload users
  = (Value (link e payload u), <[i := link e payload u]> users, []).
Proof. intros Hfind Hno. unfold findOrCreateUser. run. by rewrite Hfind, Hno. Qed.

Lemma findOrCreateUser_kept e payload users i u :
  findGoogleUser (sub payload) (payload_email payload) users = Some (i, u) →
  truthy (googleId u) = true →
  findOrCreateUser e payload users = (Value u, users, []).
Proof. intros Hfind Hhas. unfold findOrCreateUser. run. by rewrite Hfind, Hhas. Qed.

(** The array a Google handler leaves is the one it found or the one the
    shared block leaves for the verified payload. *)
Lemma googleAuth_users e credential users :
  (exec (googleAuth L cfg e credential) users).1.2 = users
  ∨ ∃ payload,
      (exec (googleAuth L cfg e credential) users).1.2
      = (findOrCreateUser e payload users).1.2.
Proof.
  destruct credential as [[|c s]|]; [by left| |by left].
  unfold googleAuth, oauth_verifyIdToken. run.
  destruct (verifyIdToken L (String c s)) as [payload|]; simpl; [|by left].
  right. exists payload.
  destruct (findOrCreateUser e payload users) as [[[u| |] users'] l]; by simpl.
Qed.

Lemma googleCallback_users e code users :
  (exec (googleCallback L cfg e code) users).1.2 = users
  ∨ ∃ payload,
      (exec (googleCallback L cfg e code) users).1.2
      = (findOrCreateUser e payload users).1.2.
Proof.
  destruct code as [[|c s]|]; [by left| |by left].
  unfold googleCallback, oauth_getToken, oauth_verifyIdToken. run.
  destruct (getToken L (String c s)) as [id_token|]; simpl; [|by left].
  destruct (verifyIdToken L id_token) as [payload|]; simpl; [|by left].
  right. exists payload.
  destruct (findOrCreateUser e payload users) as [[[u| |] users'] l]; by simpl.
Qed.

(** A record with an external id survives the shared block as it is. *)
Lemma findOrCreateUser_keeps_linked e payload users j v :
  users !! j = Some v →
  truthy (googleId v) = true →
  (findOrCreateUser e payload users).1.2 !! j = Some v.
Proof.
  intros Hj Hlinked.
  destruct (findGoogleUser (sub payload) (payload_email payload) users)
    as [[i u]|] eqn:Hfind.
  - destruct (truthy (googleId u)) eqn:Hu.
    + by rewrite (findOrCreateUser_kept _ _ _ _ _ Hfind Hu).
    + rewrite (findOrCreateUser_linked _ _ _ _ _ Hfind Hu). simpl.
      apply (find_first_match _) in Hfind as (Hi & _).
      destruct (decide (i = j)) as [->|Hne]; [congruence|].
      by rewrite list_lookup_insert_ne.
  - rewrite (findOrCreateUser_created _ _ _ Hfind). simpl.
    by apply lookup_app_l_Some.
Qed.

(** C3, as the code has it.  The lookup is one pass of [find] with the
    predicate "googleId is the asserted subject id, or email is the
    asserted email": it resolves the first record of the array, in array
    order, that satisfies either.  So the first record carrying the
    asserted subject id is the one resolved provided no record before it
    has the asserted email. *)
Theorem google_lookup_resolves_first_match users googleId email :
  (∀ i u,
     findGoogleUser googleId email users = Some (i, u)
     ↔ first_match (λ u, User.googleId u = Some googleId ∨ User.email u = email)
         users i u)
  ∧ ∀ i u,
      first_match (λ u, User.googleId u = Some googleId) users i u →
      (∀ j y, users !! j = Some y → (j < i)%nat → User.email y ≠ email) →
      findGoogleUser googleId email users = Some (i, u).
Proof.
  split.
  - intros i u. split.
    + apply (find_first_match _).
    + apply (first_match_find _).
  - intros i u (Hi & Hid & Hfirst) Hemail.
    apply (first_match_find _). split; [done|]. split; [by left|].
    intros j y Hj Hlt [Hy|Hy].
    + by apply (Hfirst j y).
    + by apply (Hemail j y).
Qed.

Lemma link_linked e payload u :
  google_linked (sub payload) (now e) u (link e payload u).
Proof. by repeat split. Qed.

(** The array a Google handler leaves when the provider vouches for
    [payload] is the array the shared block leaves. *)
Lemma google_handler_store e op payload a :
  asserts L op payload →
  authUsers (handle L cfg e op a).2
  = (findOrCreateUser e payload (authUsers a)).1.2.
Proof.
  destruct op
    as [nm em pw|em pw|token| | | | | | |code|credential|uid|uid nm em|uid|uid cur new];
    try done; simpl.
  - destruct code as [[|c s]|]; [by intros [? _]| |done].
    intros (_ & id_token & Htoken & Hverify).
    unfold on_auth, googleCallback, oauth_getToken, oauth_verifyIdToken. run.
    rewrite Htoken. simpl. rewrite Hverify. simpl.
    destruct (findOrCreateUser e payload (authUsers a)) as [[[u| |] users'] l];
      by simpl.
  - destruct credential as [[|c s]|]; [by intros [? _]| |done].
    intros (_ & Hverify).
    unfold on_auth, googleAuth, oauth_verifyIdToken. run.
    rewrite Hverify. simpl.
    destruct (findOrCreateUser e payload (authUsers a)) as [[[u| |] users'] l];
      by simpl.
Qed.

(** C4. When [googleCallback] or [googleAuth] signs in an assertion that
    resolves to an existing record: if the record has no external id, the
    handler replaces it, at its place in the array, by a record whose
    [googleId] is the asserted subject id, whose [updatedAt] is the clock
    reading of the request and whose other fields are those of the record;
    if the record has an external id, the handler leaves the array as it
    is.  And whatever a Google handler does, every record of the array
    that carries an external id is afterwards the same record at the same
    place. *)
Theorem google_links_only_without_external_id e a :
  (∀ op payload i u,
     asserts L op payload →
     first_match (λ u, User.googleId u = Some (sub payload)
                       ∨ User.email u = payload_email payload)
       (authUsers a) i u →
     (truthy (googleId u) = false →
      ∃ linked,
        authUsers (handle L cfg e op a).2 = <[i := linked]> (authUsers a)
        ∧ google_linked (sub payload) (now e) u linked)
     ∧ (truthy (googleId u) = true →
        authUsers (handle L cfg e op a).2 = authUsers a))
  ∧ ∀ op j v,
      is_social_signin op = true →
      authUsers a !! j = Some v →
      truthy (googleId v) = true →
      authUsers (handle L cfg e op a).2 !! j = Some v.
Proof.
  split.
  - intros op payload i u Hop Hfind. apply (first_match_find _) in Hfind.
    rewrite (google_handler_store e op payload a Hop). split; intros Hid.
    + exists (link e payload u).
      rewrite (findOrCreateUser_linked e payload _ i u Hfind Hid).
      split; [done|]. apply link_linked.
    + by rewrite (findOrCreateUser_kept e payload _ i u Hfind Hid).
  - intros op j v Hop Hj Hlinked.
    destruct op as [nm em pw|em pw|token| | | | | | |code|credential|uid|uid nm em|uid|uid cur new];
      try discriminate; unfold handle, on_auth.
    + destruct (googleCallback_users e code (authUsers a)) as [Hsame|[p Hp]];
        destruct (exec (googleCallback L cfg e code) (authUsers a))
          as [[r users'] l]; simpl in *; subst; [done|].
      by apply findOrCreateUser_keeps_linked.
    + destruct (googleAuth_users e credential (authUsers a)) as [Hsame|[p Hp]];
        destruct (exec (googleAuth L cfg e credential) (authUsers a))
          as [[r users'] l]; simpl in *; subst; [done|].
      by apply findOrCreateUser_keeps_linked.
Qed.

End ReconciliationProperties.

(** ** The reconciliation on the scenario *)

(** The array after Ann signed up with her password and Gia signed in with
    Google. *)
Lemma scenario_ann_then_gia :
  authUsers
    (serve Reference.libs Scenario.cfg
       [(Scenario.e1, Signup "Ann" "ann@x.com" "Abcd1234");
        (Scenario.e2, GoogleAuth (Some "g-gia|gia@x.com"))] boot)
  = [Scenario.ann; Scenario.gia].
Proof. reflexivity. Qed.

(** C3 as stated fails on that array: Google asserts Gia's subject id
    together with Ann's email; Gia's record carries the subject id, yet the
    lookup stops at Ann's record, which comes first and matches the email.
    The sign-in is answered for Ann, whose record is then given Gia's
    subject id. *)
Lemma google_lookup_not_by_id_first :
  ¬ resolves_by_id_first [Scenario.ann; Scenario.gia] "g-gia" "ann@x.com"
  ∧ findGoogleUser "g-gia" "ann@x.com" [Scenario.ann; Scenario.gia]
    = Some (0%nat, Scenario.ann)
  ∧ (exec (googleAuth Reference.libs Scenario.cfg Scenario.e3
             (Some "g-gia|ann@x.com")) [Scenario.ann; Scenario.gia]).1.2
    = [set_updatedAt 3000 (set_googleId "g-gia" Scenario.ann); Scenario.gia].
Proof.
  split; [|split; reflexivity].
  intros Hfirst.
  destruct (Hfirst Scenario.gia) as [i Hi].
  - apply list_elem_of_In. right. by left.
  - reflexivity.
  - vm_compute in Hi. discriminate.
Qed.

(** With an assertion that carries Gia's subject id and an email nobody
    has, the lookup resolves Gia. *)
Lemma google_lookup_resolves_first_match_witness :
  findGoogleUser "g-gia" "new@x.com" [Scenario.ann; Scenario.gia]
  = Some (1%nat, Scenario.gia).
Proof.
  apply (proj2 (google_lookup_resolves_first_match [Scenario.ann; Scenario.gia]
                  "g-gia" "new@x.com")).
  - apply (find_first_match _). reflexivity.
  - intros [|[|j]] y Hj Hlt; [|lia|lia].
    injection Hj as <-. discriminate.
Defined.

(** [googleCallback] with an assertion for Ann's email links her record:
    [googleId] is the asserted subject id and [updatedAt] the clock reading
    of the request; a later [googleAuth] that asserts another subject id
    for the same email leaves the record as it is. *)
Lemma google_links_only_without_external_id_witness :
  (∃ linked,
     authUsers
       (handle Reference.libs Scenario.cfg Scenario.e2
          (GoogleCallback (Some "code:g-ann|ann@x.com"))
          (mkApp [Scenario.ann; Scenario.gia] [])).2
     = <[0%nat := linked]> [Scenario.ann; Scenario.gia]
     ∧ googleId linked = Some "g-ann" ∧ updatedAt linked = 2000%N
     ∧ User.password linked = User.password Scenario.ann)
  ∧ authUsers
      (handle Reference.libs Scenario.cfg Scenario.e3
         (GoogleAuth (Some "g-other|ann@x.com"))
         (mkApp [link Scenario.e2 (mkPayload "g-ann" "ann@x.com" "Ann" None)
                   Scenario.ann; Scenario.gia] [])).2 !! 0%nat
    = Some (link Scenario.e2 (mkPayload "g-ann" "ann@x.com" "Ann" None)
              Scenario.ann).
Proof.
  split.
  - destruct (google_links_only_without_external_id Reference.libs Scenario.cfg
                Scenario.e2 (mkApp [Scenario.ann; Scenario.gia] []))
      as [Hresolved _].
    destruct (Hresolved (GoogleCallback (Some "code:g-ann|ann@x.com"))
                (mkPayload "g-ann" "ann@x.com" "Google user" None)
                0%nat Scenario.ann) as [Hlink _].
    { split; [discriminate|]. by exists "g-ann|ann@x.com". }
    { apply (find_first_match _). reflexivity. }
    destruct (Hlink eq_refl) as (linked & Hstore & Hgid & Hupdated & Hrest).
    exists linked. split; [exact Hstore|]. split; [exact Hgid|].
    split; [exact Hupdated|]. apply Hrest.
  - destruct (google_links_only_without_external_id Reference.libs Scenario.cfg
                Scenario.e3
                (mkApp [link Scenario.e2 (mkPayload "g-ann" "ann@x.com" "Ann" None)
                          Scenario.ann; Scenario.gia] []))
      as [_ Hkept].
    apply Hkept; reflexivity.
Defined.

(** ** Email uniqueness *)

Lemma emails_unique_push users (u : user) :
  emails_unique users →
  (∀ v, v ∈ users → User.email v ≠ User.email u) →
  emails_unique (users ++ [u]).
Proof.
  unfold emails_unique. intros Hunique Hfresh.
  rewrite fmap_app. apply NoDup_app. split; [done|]. split.
  - intros m Hm Hu. apply list_elem_of_singleton in Hu as ->.
    apply list_elem_of_fmap in Hm as (v & Hv & Hin). by apply (Hfresh v).
  - apply NoDup_singleton.
Qed.

Lemma NoDup_insert_fresh {A} (l : list A) i x :
  NoDup l →
  (∀ j y, l !! j = Some y → j ≠ i → y ≠ x) →
  NoDup (<[i := x]> l).
Proof.
  intros Hl Hfresh. apply NoDup_alt. intros j k y Hj Hk.
  apply list_lookup_insert_Some in Hj as [(Hij & Hxy & _)|(Hne & Hj)];
    apply list_lookup_insert_Some in Hk as [(Hik & Hxy' & _)|(Hne' & Hk)].
  - congruence.
  - subst. destruct (Hfresh k y Hk); auto.
  - subst. destruct (Hfresh j y Hj); auto.
  - by apply (NoDup_lookup l j k y).
Qed.

Lemma emails_unique_insert_same users i (u u' : user) :
  users !! i = Some u →
  User.email u' = User.email u →
  emails_unique users →
  emails_unique (<[i := u']> users).
Proof.
  unfold emails_unique. intros Hi Hemail Hunique.
  rewrite list_fmap_insert, Hemail, list_insert_id; [done|].
  by rewrite list_lookup_fmap, Hi.
Qed.

Lemma ids_unique_insert_same users i (u u' : user) :
  users !! i = Some u →
  User.id u' = User.id u →
  ids_unique users →
  ids_unique (<[i := u']> users).
Proof.
  unfold ids_unique. intros Hi Hid Hunique.
  rewrite list_fmap_insert, Hid, list_insert_id; [done|].
  by rewrite list_lookup_fmap, Hi.
Qed.

Lemma NoDup_fmap_delete {A B} (f : A → B) (l : list A) i :
  NoDup (f <$> l) → NoDup (f <$> delete i l).
Proof.
  rewrite list_fmap_delete. intros Hl.
  eapply sublist_NoDup; [done|apply sublist_delete].
Qed.

Section UniquenessProperties.
Context (L : libraries) (cfg : config).
Implicit Types (e : env) (users : list user) (a : app).

(** *** The auth controller *)

Lemma signup_conflict e name email password users u :
  u ∈ users → User.email u = email →
  exec (signup L cfg e name email password) users
  = (Next (createError StatusCodes.CONFLICT "Email already in use"), users, []).
Proof.
  intros Hin Hemail.
  destruct (list_find_elem_of (λ user, User.email user = email) users u Hin Hemail)
    as [[i v] Hfind].
  unfold signup. run. by rewrite Hfind.
Qed.

Lemma signup_users e name email password users :
  (exec (signup L cfg e name email password) users).1.2 = users
  ∨ (∀ v, v ∈ users → User.email v ≠ email)
    ∧ ∃ u, User.email u = email
           ∧ (exec (signup L cfg e name email password) users).1.2 = users ++ [u].
Proof.
  unfold signup, bcrypt_genSalt, bcrypt_hash, generateToken, signRefreshToken,
    jwt_sign. run.
  destruct (list_find (λ user, User.email user = email) users) as [[i v]|] eqn:Hfind;
    simpl; [by left|].
  right. split.
  - apply list_find_None in Hfind. by apply Forall_forall.
  - eexists. split; [|reflexivity]. reflexivity.
Qed.

Lemma signin_users e email password users :
  (exec (signin L cfg e email password) users).1.2 = users
  ∨ ∃ i u, users !! i = Some u
           ∧ (exec (signin L cfg e email password) users).1.2
             = <[i := set_lastLogin (now e) u]> users.
Proof.
  unfold signin, bcrypt_compare, generateToken, signRefreshToken, jwt_sign. run.
  destruct (list_find (λ u, User.email u = email) users) as [[i u]|] eqn:Hfind;
    simpl; [|by left].
  apply (find_first_match _) in Hfind as (Hi & _).
  destruct (isActive u); simpl; [|by left].
  destruct (User.password u) as [h|]; simpl; [|by left].
  destruct (compare L password h); simpl; [|by left].
  right. exists i, u. split; [done|]. by apply alter_insert.
Qed.

Lemma refreshToken_users e token users :
  (exec (refreshToken L cfg e token) users).1.2 = users.
Proof.
  destruct token as [[|c s]|]; [done| |done].
  unfold refreshToken, jwt_verify, generateToken, jwt_sign. run.
  by destruct (verify L (String c s) (jwt_secret cfg) (now e)).
Qed.

Lemma findOrCreateUser_emails_unique e payload users :
  emails_unique users →
  emails_unique (findOrCreateUser e payload users).1.2.
Proof.
  intros Hunique.
  destruct (findGoogleUser (sub payload) (payload_email payload) users)
    as [[i u]|] eqn:Hfind.
  - destruct (truthy (googleId u)) eqn:Hu.
    + by rewrite (findOrCreateUser_kept _ _ _ _ _ Hfind Hu).
    + rewrite (findOrCreateUser_linked _ _ _ _ _ Hfind Hu). simpl.
      apply (find_first_match _) in Hfind as (Hi & _).
      by apply (emails_unique_insert_same _ _ u).
  - rewrite (findOrCreateUser_created _ _ _ Hfind). simpl.
    apply emails_unique_push; [done|]. simpl.
    apply list_find_None in Hfind. intros v Hv Hemail.
    eapply Forall_forall in Hfind; [|done]. apply Hfind. by right.
Qed.

Lemma auth_handlers_emails_unique e op a :
  is_auth_operation op = true →
  emails_unique (authUsers a) →
  emails_unique (authUsers (handle L cfg e op a).2)
  ∧ userUsers (handle L cfg e op a).2 = userUsers a.
Proof.
  intros Hop Hunique.
  destruct op as [nm em pw|em pw|token| | | | | | |code|credential|uid|uid nm em|uid|uid cur new];
    try discriminate; unfold handle, on_auth.
  - destruct (signup_users e nm em pw (authUsers a))
      as [Hsame|(Hfresh & u & Hu & Hpush)];
      destruct (exec (signup L cfg e nm em pw) (authUsers a))
        as [[r users'] l]; simpl in *; subst; [done|].
    split; [|done]. by apply emails_unique_push.
  - destruct (signin_users e em pw (authUsers a))
      as [Hsame|(i & u & Hi & Hstamp)];
      destruct (exec (signin L cfg e em pw) (authUsers a))
        as [[r users'] l]; simpl in *; subst; [done|].
    split; [|done]. by apply (emails_unique_insert_same _ _ u).
  - pose proof (refreshToken_users e token (authUsers a)) as Hsame.
    destruct (exec (refreshToken L cfg e token) (authUsers a))
      as [[r users'] l]; simpl in *; by subst.
  - done.
  - done.
  - done.
  - done.
  - done.
  - done.
  - destruct (googleCallback_users L cfg e code (authUsers a)) as [Hsame|[p Hp]];
      destruct (exec (googleCallback L cfg e code) (authUsers a))
        as [[r users'] l]; simpl in *; subst; [done|].
    split; [|done]. by apply findOrCreateUser_emails_unique.
  - destruct (googleAuth_users L cfg e credential (authUsers a)) as [Hsame|[p Hp]];
      destruct (exec (googleAuth L cfg e credential) (authUsers a))
        as [[r users'] l]; simpl in *; subst; [done|].
    split; [|done]. by apply findOrCreateUser_emails_unique.
Qed.

End UniquenessProperties.

Section UserStoreProperties.
Context (L : libraries) (cfg : config).
Implicit Types (e : env) (users : list user) (a : app).

(** *** The user controller *)

Lemma getCurrentUser_users userId users :
  (exec (getCurrentUser userId) users).1.2 = users.
Proof.
  unfold getCurrentUser. run.
  by destruct (list_find (λ u, User.id u = userId) users) as [[i u]|].
Qed.

Lemma updateCurrentUser_conflict e userId nm em users i current other :
  first_match (λ u, User.id u = userId) users i current →
  em ≠ "" → em ≠ User.email current →
  other ∈ users → User.email other = em → User.id other ≠ userId →
  exec (updateCurrentUser e userId nm (Some em)) users
  = (Next (createError StatusCodes.CONFLICT "Email already in use"), users, []).
Proof.
  intros Hfind%(first_match_find _) Hnonempty Hchanged Hin Hemail Hid.
  unfold updateCurrentUser. run. rewrite Hfind.
  assert (Hexists : emailExists em userId users = true).
  { apply bool_decide_eq_true, Exists_exists. by exists other. }
  rewrite Hexists, bool_decide_eq_false_2 by congruence.
  by destruct em.
Qed.

Lemma updateCurrentUser_users e userId nm em users :
  (exec (updateCurrentUser e userId nm em) users).1.2 = users
  ∨ ∃ i current updated,
      first_match (λ u, User.id u = userId) users i current
      ∧ (exec (updateCurrentUser e userId nm em) users).1.2
        = <[i := updated]> users
      ∧ User.id updated = User.id current
      ∧ (User.email updated = User.email current
         ∨ emailExists (User.email updated) userId users = false).
Proof.
  unfold updateCurrentUser. run.
  destruct (list_find (λ u, User.id u = userId) users) as [[i current]|] eqn:Hfind;
    simpl; [|by left].
  apply (find_first_match _) in Hfind.
  destruct em as [[|c s]|]; simpl.
  - right. exists i, current. eexists. split; [done|]. split; [reflexivity|].
    split; [done|]. by left.
  - destruct (bool_decide (Some (String c s) = Some (User.email current)))
      eqn:Hsame; simpl.
    + apply bool_decide_eq_true in Hsame. injection Hsame as Hsame.
      right. exists i, current. eexists. split; [done|]. split; [reflexivity|].
      split; [done|]. by left.
    + destruct (emailExists (String c s) userId users) eqn:Hexists; simpl;
        [by left|].
      right. exists i, current. eexists. split; [done|]. split; [reflexivity|].
      split; [done|]. by right.
  - right. exists i, current. eexists. split; [done|]. split; [reflexivity|].
    split; [done|]. by left.
Qed.

Lemma deleteCurrentUser_users userId users :
  (exec (deleteCurrentUser userId) users).1.2 = users
  ∨ ∃ i, (exec (deleteCurrentUser userId) users).1.2 = delete i users.
Proof.
  unfold deleteCurrentUser. run.
  destruct (list_find (λ u, User.id u = userId) users) as [[i u]|]; simpl;
    [right; by exists i|by left].
Qed.

Lemma changePassword_users e userId cur new users :
  (exec (changePassword L e userId cur new) users).1.2 = users
  ∨ ∃ i u h,
      users !! i = Some u
      ∧ (exec (changePassword L e userId cur new) users).1.2
        = <[i := set_updatedAt (now e) (set_password h u)]> users.
Proof.
  unfold changePassword, bcrypt_compare, bcrypt_genSalt, bcrypt_hash. run.
  destruct (list_find (λ u, User.id u = userId) users) as [[i u]|] eqn:Hfind;
    simpl; [|by left].
  apply (find_first_match _) in Hfind as (Hi & _).
  destruct (User.password u) as [h|]; simpl; [|by left].
  destruct (compare L cur h); simpl; [|by left].
  right. by exists i, u, (hash L new (salt e)).
Qed.

(** A profile update keeps the emails of the array distinct when its ids
    are distinct: the re-check passes over the records with the requester's
    id, and only the requester's own record has it. *)
Lemma updateCurrentUser_emails_unique e userId nm em users :
  emails_unique users → ids_unique users →
  emails_unique (exec (updateCurrentUser e userId nm em) users).1.2.
Proof.
  intros Hemails Hids.
  destruct (updateCurrentUser_users e userId nm em users)
    as [->|(i & current & updated & (Hi & Hid & _) & -> & _ & [Hsame|Hfresh])];
    [done| |].
  - by apply (emails_unique_insert_same _ _ current).
  - unfold emails_unique. rewrite list_fmap_insert.
    apply NoDup_insert_fresh; [done|].
    intros j m Hj Hne Hm.
    rewrite list_lookup_fmap in Hj.
    destruct (users !! j) as [v|] eqn:Hv; [|done]. injection Hj as <-.
    apply bool_decide_eq_false in Hfresh. apply Hfresh, Exists_exists.
    exists v. split; [by eapply list_elem_of_lookup_2|]. split; [done|].
    intros Hvid. apply Hne.
    apply (NoDup_lookup (User.id <$> users) j i userId Hids).
    + by rewrite list_lookup_fmap, Hv; simpl; rewrite Hvid.
    + by rewrite list_lookup_fmap, Hi; simpl; rewrite Hid.
Qed.

Lemma user_handlers_invariant e op a :
  is_auth_operation op = false →
  emails_unique (userUsers a) → ids_unique (userUsers a) →
  emails_unique (userUsers (handle L cfg e op a).2)
  ∧ ids_unique (userUsers (handle L cfg e op a).2)
  ∧ authUsers (handle L cfg e op a).2 = authUsers a.
Proof.
  intros Hop Hemails Hids.
  destruct op
    as [nm em pw|em pw|token| | | | | | |code|credential|uid|uid nm em|uid|uid cur new];
    try discriminate; unfold handle, on_user.
  - pose proof (getCurrentUser_users uid (userUsers a)) as Hsame.
    destruct (exec (getCurrentUser uid) (userUsers a)) as [[r users'] l];
      simpl in *; by subst.
  - pose proof (updateCurrentUser_emails_unique e uid nm em _ Hemails Hids)
      as Hemails'.
    destruct (updateCurrentUser_users e uid nm em (userUsers a))
      as [Hsame|(i & current & updated & (Hi & _) & Hupd & Hid & _)];
      destruct (exec (updateCurrentUser e uid nm em) (userUsers a))
        as [[r users'] l]; simpl in *; subst; [done|].
    split; [done|]. split; [|done].
    by apply (ids_unique_insert_same _ _ current).
  - destruct (deleteCurrentUser_users uid (userUsers a)) as [Hsame|[i Hdel]];
      destruct (exec (deleteCurrentUser uid) (userUsers a)) as [[r users'] l];
      simpl in *; subst; [done|].
    split; [by apply NoDup_fmap_delete|]. split; [by apply NoDup_fmap_delete|done].
  - destruct (changePassword_users e uid cur new (userUsers a))
      as [Hsame|(i & u & h & Hi & Hset)];
      destruct (exec (changePassword L e uid cur new) (userUsers a))
        as [[r users'] l]; simpl in *; subst; [done|].
    split; [by apply (emails_unique_insert_same _ _ u)|].
    split; [by apply (ids_unique_insert_same _ _ u)|done].
Qed.

(** Every handler keeps the invariant of the arrays. *)
Lemma handle_invariant e op a :
  app_invariant a → app_invariant (handle L cfg e op a).2.
Proof.
  intros (Hauth & Hemails & Hids). unfold app_invariant.
  destruct (is_auth_operation op) eqn:Hop.
  - destruct (auth_handlers_emails_unique L cfg e op a Hop Hauth) as [Hauth' ->].
    done.
  - destruct (user_handlers_invariant e op a Hop Hemails Hids)
      as (Hemails' & Hids' & ->).
    done.
Qed.

Lemma serve_invariant reqs a :
  app_invariant a → app_invariant (serve L cfg reqs a).
Proof.
  revert a. induction reqs as [|[e op] reqs IH]; intros a Ha; simpl; [done|].
  by apply IH, handle_invariant.
Qed.

Lemma boot_invariant : app_invariant boot.
Proof. repeat split; apply NoDup_nil_2. Qed.

(** Email uniqueness when requests are served one after the other, each
    handler running to completion: in every state so reached no two
    records of an array share an email (compared as stored).  A signup
    with an email some record already has answers Conflict and adds
    nothing; a profile update to an email that a record of another user has
    answers Conflict and changes nothing; and every handler, run on arrays
    with distinct emails (and, for the user controller, distinct ids),
    leaves arrays with distinct emails. *)
Theorem email_uniqueness :
  (∀ a, reachable L cfg a →
        emails_unique (authUsers a) ∧ emails_unique (userUsers a))
  ∧ (∀ e nm em pw users u,
       u ∈ users → User.email u = em →
       exec (signup L cfg e nm em pw) users
       = (Next (createError StatusCodes.CONFLICT "Email already in use"),
          users, []))
  ∧ (∀ e userId nm em users i current other,
       first_match (λ u, User.id u = userId) users i current →
       em ≠ "" → em ≠ User.email current →
       other ∈ users → User.email other = em → User.id other ≠ userId →
       exec (updateCurrentUser e userId nm (Some em)) users
       = (Next (createError StatusCodes.CONFLICT "Email already in use"),
          users, []))
  ∧ (∀ e op a, app_invariant a → app_invariant (handle L cfg e op a).2).
Proof.
  split; [|split; [|split]].
  - intros a [reqs ->].
    destruct (serve_invariant reqs boot boot_invariant) as (? & ? & _). done.
  - intros. by eapply signup_conflict.
  - intros. by eapply updateCurrentUser_conflict.
  - intros. by apply handle_invariant.
Qed.

End UserStoreProperties.

(** ** The two arrays *)

Section FrameProperties.
Context (L : libraries) (cfg : config).
Implicit Types (e : env) (a : app).

Lemma auth_handlers_frame e op a :
  is_auth_operation op = true →
  userUsers (handle L cfg e op a).2 = userUsers a.
Proof.
  intros Hop.
  destruct op
    as [nm em pw|em pw|token| | | | | | |code|credential|uid|uid nm em|uid|uid cur new];
    try discriminate; unfold handle, on_auth;
    match goal with
    | |- context [exec ?h ?users] => by destruct (exec h users) as [[r users'] l]
    end.
Qed.

(** On an empty array every handler of the user controller answers 404
    "User not found" and leaves the array empty. *)
Lemma user_handlers_not_found e op a :
  is_auth_operation op = false →
  userUsers a = [] →
  handle L cfg e op a
  = (Next (createError StatusCodes.NOT_FOUND "User not found"), a).
Proof.
  intros Hop Hempty. destruct a as [auth users]. simpl in Hempty. subst users.
  by destruct op.
Qed.

Lemma serve_user_store_empty reqs a :
  userUsers a = [] → userUsers (serve L cfg reqs a) = [].
Proof.
  revert a. induction reqs as [|[e op] reqs IH]; intros a Hempty; simpl; [done|].
  apply IH. destruct (is_auth_operation op) eqn:Hop.
  - by rewrite auth_handlers_frame.
  - by rewrite user_handlers_not_found.
Qed.

(** C10. The handlers of the auth controller work on [authUsers] and leave
    the user controller's array as it is; that array is empty at boot and
    nothing ever adds to it.  So after any sequence of requests (signups,
    signins, Google sign-ins and all the others) the user controller's
    array is empty, and [getCurrentUser], [updateCurrentUser],
    [deleteCurrentUser] and [changePassword] answer 404 "User not found"
    for every [userId], the ids of the users that signed up included. *)
Theorem user_controller_never_sees_auth_users :
  (∀ e op a,
     is_auth_operation op = true →
     userUsers (handle L cfg e op a).2 = userUsers a)
  ∧ ∀ reqs,
      let a := serve L cfg reqs boot in
      userUsers a = []
      ∧ ∀ e userId nm em cur new,
          let notFound := Next (createError StatusCodes.NOT_FOUND "User not found") in
          handle L cfg e (GetCurrentUser userId) a = (notFound, a)
          ∧ handle L cfg e (UpdateCurrentUser userId nm em) a = (notFound, a)
          ∧ handle L cfg e (DeleteCurrentUser userId) a = (notFound, a)
          ∧ handle L cfg e (ChangePassword userId cur new) a = (notFound, a).
Proof.
  split; [apply auth_handlers_frame|].
  intros reqs a.
  assert (Hempty : userUsers a = []) by by apply serve_user_store_empty.
  split; [done|]. intros e userId nm em cur new notFound.
  repeat split; by apply user_handlers_not_found.
Qed.

End FrameProperties.

(** Ann signs up; her record is in the auth controller's array, and the
    user controller does not find her id. *)
Lemma user_controller_never_sees_auth_users_witness :
  let a := serve Reference.libs Scenario.cfg
             [(Scenario.e1, Signup "Ann" "ann@x.com" "Abcd1234")] boot in
  authUsers a = [Scenario.ann]
  ∧ userUsers (handle Reference.libs Scenario.cfg Scenario.e2
                 (Signin "ann@x.com" "Abcd1234") a).2 = userUsers a
  ∧ handle Reference.libs Scenario.cfg Scenario.e2 (GetCurrentUser "1000") a
    = (Next (ApiError 404 "User not found" []), a).
Proof.
  intros a. split; [reflexivity|]. split.
  - apply (proj1 (user_controller_never_sees_auth_users Reference.libs
                    Scenario.cfg)).
    reflexivity.
  - destruct (proj2 (user_controller_never_sees_auth_users Reference.libs
                       Scenario.cfg)
                [(Scenario.e1, Signup "Ann" "ann@x.com" "Abcd1234")])
      as [_ Hnot_found].
    destruct (Hnot_found Scenario.e2 "1000" None None "" "") as [Hget _].
    exact Hget.
Defined.

(** Email uniqueness on the scenario: the arrays after a signup and a
    Google sign-in, a second signup for Ann's email, Bob asking for Ann's
    email, and a handler run on the scenario's arrays. *)
Lemma email_uniqueness_witness :
  emails_unique [Scenario.ann; Scenario.gia]
  ∧ exec (signup Reference.libs Scenario.cfg Scenario.e2 "Ann again" "ann@x.com"
            "Efgh5678") [Scenario.ann; Scenario.gia]
    = (Next (ApiError 409 "Email already in use" []),
       [Scenario.ann; Scenario.gia], [])
  ∧ exec (updateCurrentUser Scenario.e2 "1500" None (Some "ann@x.com"))
      [Scenario.ann; Scenario.bob]
    = (Next (ApiError 409 "Email already in use" []),
       [Scenario.ann; Scenario.bob], [])
  ∧ app_invariant
      (handle Reference.libs Scenario.cfg Scenario.e3
         (UpdateCurrentUser "1500" None (Some "bob@y.com"))
         (mkApp [Scenario.ann; Scenario.gia] [Scenario.ann; Scenario.bob])).2.
Proof.
  destruct (email_uniqueness Reference.libs Scenario.cfg)
    as (Hreachable & Hsignup & Hupdate & Hpreserved).
  split; [|split; [|split]].
  - rewrite <- scenario_ann_then_gia. apply Hreachable. by eexists.
  - apply (Hsignup _ _ _ _ _ Scenario.ann); [|reflexivity].
    apply list_elem_of_In. by left.
  - apply (Hupdate _ _ _ _ _ 1%nat Scenario.bob Scenario.ann);
      try discriminate; try reflexivity.
    + apply (find_first_match _). reflexivity.
    + apply list_elem_of_In. by left.
  - apply Hpreserved. unfold app_invariant, emails_unique, ids_unique. simpl.
    repeat split; apply (bool_decide_unpack _); vm_compute; exact I.
Defined.

(** ** Signups that overlap *)

(** Resumed twice with no other request in between, the handler cut at its
    two [await]s answers what [signup] answers and leaves the array
    [signup] leaves. *)
Lemma signup_async_uninterrupted L cfg e nm em pw users :
  let first := signup_async L cfg e nm em pw users in
  let second := resume first.1 first.2 in
  resume second.1 second.2
  = (Finished (exec (signup L cfg e nm em pw) users).1.1,
     (exec (signup L cfg e nm em pw) users).1.2).
Proof.
  unfold signup_async, signup, bcrypt_genSalt, bcrypt_hash, generateToken,
    signRefreshToken, jwt_sign. run.
  by destruct (list_find (λ user, User.email user = em) users) as [[i u]|].
Qed.

(** A signup that arrives while another one for the same email is
    suspended has already looked the email up when it is resumed, and does
    not look again: both are answered 201 and both records are pushed. *)
Lemma overlapping_signups_both_accepted L cfg e e' nm nm' em pw pw' users :
  (∀ u, u ∈ users → User.email u ≠ em) →
  ∃ u u' session session',
    run_events L cfg
      [Arrives e nm em pw; Arrives e' nm' em pw';
       Resumes 0; Resumes 0; Resumes 1; Resumes 1] (mkServer users [])
    = mkServer (users ++ [u; u'])
        [Finished (Json StatusCodes.CREATED session);
         Finished (Json StatusCodes.CREATED session')]
    ∧ User.email u = em ∧ User.email u' = em
    ∧ ¬ emails_unique (users ++ [u; u']).
Proof.
  intros Hfresh. pose proof (no_match_find _ _ Hfresh) as Hnone.
  set (record e nm pw :=
         mkUser (pretty (now e)) nm em (Some (hash L pw (salt e))) None None
           "user" true None (now e) (now e) None).
  set (answer e nm pw :=
         Session (Some "User registered successfully")
           (omit_password (record e nm pw))
           (sign L (pretty (now e)) (jwt_secret cfg) (jwt_expiresIn cfg) (now e))
           (sign L (pretty (now e)) (jwt_secret cfg) (days 30) (now e))).
  exists (record e nm pw), (record e' nm' pw'), (answer e nm pw),
    (answer e' nm' pw').
  split; [|split; [|split]].
  - unfold run_events, deliver, signup_async, resume. simpl.
    repeat (rewrite Hnone; simpl). by rewrite <- app_assoc.
  - done.
  - done.
  - unfold emails_unique. rewrite fmap_app. simpl.
    intros (_ & _ & Hdup)%NoDup_app. apply NoDup_cons in Hdup as [Hin _].
    apply Hin. by left.
Qed.

(** C2. Email uniqueness does not hold in every state the process reaches.
    A signup for ann@x.com arrives and is suspended at
    [await bcrypt.genSalt(10)], after its lookup; a second signup for the
    same email arrives, finds no record and is suspended too.  The first
    is resumed to its end, then the second: neither looks the email up
    again, both are answered 201 and the array holds two records with the
    email ann@x.com.  Served after the first has ended, the second signup
    is answered Conflict. *)
Theorem overlapping_signups_share_an_email :
  ∃ s session session',
    s = run_events Reference.libs Scenario.cfg
          [Arrives Scenario.e1 "Ann" "ann@x.com" "Abcd1234";
           Arrives Scenario.e2 "Eve" "ann@x.com" "Wxyz9876";
           Resumes 0; Resumes 0; Resumes 1; Resumes 1] (mkServer [] [])
    ∧ pending s = [Finished (Json StatusCodes.CREATED session);
                   Finished (Json StatusCodes.CREATED session')]
    ∧ store s
      = [Scenario.ann;
         mkUser "2000" "Eve" "ann@x.com" (Some "s2$Wxyz9876") None None "user"
           true None 2000 2000 None]
    ∧ User.email <$> store s = ["ann@x.com"; "ann@x.com"]
    ∧ ¬ emails_unique (store s)
    ∧ (exec (signup Reference.libs Scenario.cfg Scenario.e2 "Eve" "ann@x.com"
               "Wxyz9876") [Scenario.ann]).1
      = (Next (createError StatusCodes.CONFLICT "Email already in use"),
         [Scenario.ann]).
Proof.
  eexists _, _, _. split; [reflexivity|]. split; [reflexivity|].
  split; [reflexivity|]. split; [reflexivity|]. split; [|reflexivity].
  unfold emails_unique. simpl.
  intros Hdup. apply NoDup_cons in Hdup as [Hin _].
  apply Hin. by left.
Qed.

(** * Further properties of the controllers *)

Lemma insert_snoc {A} (l : list A) (x y : A) :
  <[length l := y]> (l ++ [x]) = l ++ [y].
Proof. induction l as [|z l IH]; simpl; [done|]. by rewrite IH. Qed.

Lemma first_match_snoc {A} (P : A → Prop) (l : list A) (x : A) :
  (∀ y, y ∈ l → ¬ P y) → P x → first_match P (l ++ [x]) (length l) x.
Proof.
  intros Hnone Hx. split; [by apply list_lookup_middle|]. split; [done|].
  intros j y Hj Hlt. rewrite lookup_app_l in Hj by done.
  apply Hnone. by eapply list_elem_of_lookup_2.
Qed.

Lemma first_match_insert {A} (P : A → Prop) (l : list A) i (x x' : A) :
  first_match P l i x → P x' → first_match P (<[i := x']> l) i x'.
Proof.
  intros (Hi & _ & Hfirst) Hx'. split.
  - apply list_lookup_insert_eq. by eapply lookup_lt_Some.
  - split; [done|]. intros j y Hj Hlt.
    rewrite list_lookup_insert_ne in Hj by lia. by apply (Hfirst j).
Qed.


Section SessionProperties.
Context (L : libraries) (cfg : config).
Implicit Types (e : env) (users : list user).

Lemma signup_created e nm em pw users :
  (∀ u, u ∈ users → User.email u ≠ em) →
  exec (signup L cfg e nm em pw) users
  = (Json StatusCodes.CREATED
       (Session (Some "User registered successfully")
          (omit_password
             (mkUser (pretty (now e)) nm em (Some (hash L pw (salt e))) None None
                "user" true None (now e) (now e) None))
          (sign L (pretty (now e)) (jwt_secret cfg) (jwt_expiresIn cfg) (now e))
          (sign L (pretty (now e)) (jwt_secret cfg) (days 30) (now e))),
     users ++ [mkUser (pretty (now e)) nm em (Some (hash L pw (salt e))) None None
                 "user" true None (now e) (now e) None],
     [BcryptGenSalt 10; BcryptHash pw (salt e);
      JwtSign (pretty (now e)) (jwt_expiresIn cfg);
      JwtSign (pretty (now e)) (days 30)]).
Proof.
  intros Hfresh. pose proof (no_match_find _ _ Hfresh) as Hnone.
  unfold signup, bcrypt_genSalt, bcrypt_hash, generateToken, signRefreshToken,
    jwt_sign. run.
  by rewrite Hnone.
Qed.

(** X1. A signup with a fresh email, followed by a signin with the same
    email: given that the stored hash verifies the chosen password and no
    other, the signin with that password succeeds; the answer shows the
    record the signup created, field by field and as it was before the
    signin, with tokens for its id; the record is replaced, at the end of
    the array, by one whose [lastLogin] is the clock reading of the signin
    and whose other fields are as they were.  A signin with any other
    password is Unauthorized and leaves the array as the signup left it. *)
Theorem signup_then_signin e e' nm em pw users :
  (∀ u, u ∈ users → User.email u ≠ em) →
  verifies_only L (hash L pw (salt e)) pw →
  let created : user :=
    mkUser (pretty (now e)) nm em (Some (hash L pw (salt e))) None None
           "user" true None (now e) (now e) None in
  (exec (signup L cfg e nm em pw) users).1.2 = users ++ [created]
  ∧ (∃ stamped p,
       (exec (signin L cfg e' em pw) (users ++ [created])).1
       = (Json StatusCodes.OK
            (Session (Some "Logged in successfully") p
               (sign L (id created) (jwt_secret cfg) (jwt_expiresIn cfg) (now e'))
               (sign L (id created) (jwt_secret cfg) (days 30) (now e'))),
          users ++ [stamped])
       ∧ login_stamped (now e') created stamped
       ∧ shows p created)
  ∧ ∀ attempt,
      attempt ≠ pw →
      (exec (signin L cfg e' em attempt) (users ++ [created])).1
      = (Next (createError StatusCodes.UNAUTHORIZED "Invalid credentials"),
         users ++ [created]).
Proof.
  intros Hfresh Hhash created.
  assert (Hfind : first_match (λ u, User.email u = em) (users ++ [created])
                    (length users) created)
    by by apply first_match_snoc.
  split; [by rewrite signup_created|]. split.
  - exists (set_lastLogin (now e') created), (omit_password created).
    split; [|split].
    + rewrite (signin_success L cfg e' em pw _ (length users) created
                 (hash L pw (salt e)));
        try done.
      * simpl. by rewrite insert_snoc.
      * rewrite Hhash. by apply bool_decide_eq_true.
    + by repeat split.
    + by repeat split.
  - intros attempt Hattempt.
    rewrite (signin_mismatch L cfg e' em attempt _ (length users) created
               (hash L pw (salt e)));
      try done.
    rewrite Hhash. by apply bool_decide_eq_false.
Qed.

(** X2. Two signups served with the same clock reading, for two fresh and
    different emails: both are accepted, the two records get the same [id],
    and the two answers carry the same access token and the same refresh
    token. *)
Theorem signups_at_one_clock_reading_collide e nm em pw nm' em' pw' users :
  (∀ u, u ∈ users → User.email u ≠ em) →
  (∀ u, u ∈ users → User.email u ≠ em') →
  em ≠ em' →
  ∃ u u' token refreshToken,
    exec (signup L cfg e nm em pw) users
    = (Json StatusCodes.CREATED
         (Session (Some "User registered successfully") (omit_password u)
            token refreshToken),
       users ++ [u],
       [BcryptGenSalt 10; BcryptHash pw (salt e);
        JwtSign (id u) (jwt_expiresIn cfg); JwtSign (id u) (days 30)])
    ∧ (exec (signup L cfg e nm' em' pw') (users ++ [u])).1
      = (Json StatusCodes.CREATED
           (Session (Some "User registered successfully") (omit_password u')
              token refreshToken),
         users ++ [u; u'])
    ∧ User.email u = em ∧ User.email u' = em' ∧ id u = id u'.
Proof.
  intros Hfresh Hfresh' Hne.
  exists (mkUser (pretty (now e)) nm em (Some (hash L pw (salt e))) None None
            "user" true None (now e) (now e) None),
    (mkUser (pretty (now e)) nm' em' (Some (hash L pw' (salt e))) None None
       "user" true None (now e) (now e) None),
    (sign L (pretty (now e)) (jwt_secret cfg) (jwt_expiresIn cfg) (now e)),
    (sign L (pretty (now e)) (jwt_secret cfg) (days 30) (now e)).
  split; [by apply signup_created|]. split.
  - rewrite signup_created.
    + simpl. by rewrite <- app_assoc.
    + intros v Hv. apply elem_of_app in Hv as [Hv|Hv]; [by apply Hfresh'|].
      apply list_elem_of_singleton in Hv as ->. simpl. congruence.
  - done.
Qed.

(** X3. The refresh endpoint never consults the array: its answer is the
    same whatever the array holds, and it leaves the array as it is.  A
    token therefore refreshes whether or not a record with its [userId]
    exists or is active. *)
Theorem refreshToken_ignores_users e token users users' :
  (exec (refreshToken L cfg e token) users).1.1
  = (exec (refreshToken L cfg e token) users').1.1
  ∧ (exec (refreshToken L cfg e token) users).2
    = (exec (refreshToken L cfg e token) users').2
  ∧ (exec (refreshToken L cfg e token) users).1.2 = users.
Proof.
  destruct token as [[|c s]|]; [done| |done].
  unfold refreshToken, jwt_verify, generateToken, jwt_sign. run.
  by destruct (verify L (String c s) (jwt_secret cfg) (now e)).
Qed.

End SessionProperties.

(** ** What the handlers do to the auth controller's array *)

Section AuthStoreProperties.
Context (L : libraries) (cfg : config).
Implicit Types (e : env) (users : list user) (a : app).

(** One run of the shared block of the Google handlers leaves the array as
    it is, appends one record, or rewrites [googleId] and [updatedAt] of
    one. *)
Lemma findOrCreateUser_step e payload users :
  let users' := (findOrCreateUser e payload users).1.2 in
  users' = users
  ∨ (∃ u, users' = users ++ [u] ∧ id u = pretty (now e) ∧ auth_record u
          ∧ ∀ v, v ∈ users → User.email v ≠ User.email u)
  ∨ (∃ i u, users !! i = Some u ∧ truthy (googleId u) = false
            ∧ users' = <[i := link e payload u]> users).
Proof.
  simpl.
  destruct (findGoogleUser (sub payload) (payload_email payload) users)
    as [[i u]|] eqn:Hfind.
  - destruct (truthy (googleId u)) eqn:Hu.
    + left. by rewrite (findOrCreateUser_kept _ _ _ _ _ Hfind Hu).
    + right. right. exists i, u.
      rewrite (findOrCreateUser_linked _ _ _ _ _ Hfind Hu).
      apply (find_first_match _) in Hfind as (Hi & _). done.
  - right. left. rewrite (findOrCreateUser_created _ _ _ Hfind). simpl.
    eexists. split; [reflexivity|]. split; [done|]. split.
    + unfold auth_record. simpl. split; [done|]. split; [done|]. right. by eexists.
    + simpl. apply list_find_None in Hfind. intros v Hv Hemail.
      eapply Forall_forall in Hfind; [|done]. apply Hfind. by right.
Qed.

(** Every handler leaves the auth controller's array as it is, appends one
    record whose id is the clock reading of the request, or rewrites one
    record without touching its id, email, password, role or [isActive]. *)
Lemma auth_store_step e op a :
  let users := authUsers a in
  let users' := authUsers (handle L cfg e op a).2 in
  users' = users
  ∨ (∃ u, users' = users ++ [u] ∧ id u = pretty (now e) ∧ auth_record u
          ∧ ∀ v, v ∈ users → User.email v ≠ User.email u)
  ∨ (∃ i u u', users !! i = Some u ∧ users' = <[i := u']> users
               ∧ id u' = id u ∧ User.email u' = User.email u
               ∧ User.password u' = User.password u
               ∧ isActive u' = isActive u ∧ role u' = role u
               ∧ (is_Some (googleId u) → is_Some (googleId u'))).
Proof.
  assert (Hgoogle : ∀ payload users,
    let users' := (findOrCreateUser e payload users).1.2 in
    users' = users
    ∨ (∃ u, users' = users ++ [u] ∧ id u = pretty (now e) ∧ auth_record u
            ∧ ∀ v, v ∈ users → User.email v ≠ User.email u)
    ∨ (∃ i u u', users !! i = Some u ∧ users' = <[i := u']> users
                 ∧ id u' = id u ∧ User.email u' = User.email u
                 ∧ User.password u' = User.password u
                 ∧ isActive u' = isActive u ∧ role u' = role u
                 ∧ (is_Some (googleId u) → is_Some (googleId u')))).
  { intros payload users.
    destruct (findOrCreateUser_step e payload users)
      as [Hsame|[Hpush|(i & u & Hi & _ & Hlink)]]; [by left|by right; left|].
    right. right. exists i, u, (link e payload u).
    repeat (split; [done|]). intros _. by eexists. }
  destruct op
    as [nm em pw|em pw|token| | | | | | |code|credential|uid|uid nm em|uid|uid cur new];
    unfold handle, on_auth, on_user; simpl.
  - destruct (list_find (λ u, User.email u = em) (authUsers a)) as [[i v]|] eqn:Hfind.
    + left. apply (find_first_match _) in Hfind as (Hi & Hv & _).
      rewrite (signup_conflict L cfg e nm em pw _ v); [done| |done].
      by eapply list_elem_of_lookup_2.
    + right. left. apply list_find_None in Hfind.
      assert (Hfresh : ∀ u, u ∈ authUsers a → User.email u ≠ em)
        by by apply Forall_forall.
      rewrite (signup_created L cfg e nm em pw _ Hfresh). simpl.
      eexists. split; [reflexivity|]. split; [done|]. split; [|done].
      unfold auth_record. simpl. split; [done|]. split; [done|]. left. by eexists.
  - destruct (signin_users L cfg e em pw (authUsers a))
      as [Hsame|(i & u & Hi & Hstamp)];
      destruct (exec (signin L cfg e em pw) (authUsers a)) as [[r users'] l];
      simpl in *; subst; [by left|].
    right. right. by exists i, u, (set_lastLogin (now e) u).
  - pose proof (refreshToken_users L cfg e token (authUsers a)) as Hsame.
    destruct (exec (refreshToken L cfg e token) (authUsers a)) as [[r users'] l];
      simpl in *; subst. by left.
  - by left.
  - by left.
  - by left.
  - by left.
  - by left.
  - by left.
  - destruct (googleCallback_users L cfg e code (authUsers a)) as [Hsame|[p Hp]];
      destruct (exec (googleCallback L cfg e code) (authUsers a))
        as [[r users'] l]; simpl in *; subst; [by left|].
    apply Hgoogle.
  - destruct (googleAuth_users L cfg e credential (authUsers a)) as [Hsame|[p Hp]];
      destruct (exec (googleAuth L cfg e credential) (authUsers a))
        as [[r users'] l]; simpl in *; subst; [by left|].
    apply Hgoogle.
  - left. by destruct (exec (getCurrentUser uid) (userUsers a)) as [[r users'] l].
  - left.
    by destruct (exec (updateCurrentUser e uid nm em) (userUsers a))
      as [[r users'] l].
  - left. by destruct (exec (deleteCurrentUser uid) (userUsers a)) as [[r users'] l].
  - left.
    by destruct (exec (changePassword L e uid cur new) (userUsers a))
      as [[r users'] l].
Qed.

Lemma handle_auth_records e op a :
  Forall auth_record (authUsers a) →
  Forall auth_record (authUsers (handle L cfg e op a).2).
Proof.
  intros Hall.
  destruct (auth_store_step e op a)
    as [->|[(u & -> & _ & Hu & _)
           |(i & u & u' & Hi & -> & _ & _ & Hpw & Hactive & Hrole & Hgid)]];
    [done| |].
  - apply Forall_app. split; [done|]. by apply Forall_singleton.
  - apply Forall_insert; [done|].
    eapply Forall_lookup_1 in Hall as (? & ? & Hcred); [|done].
    unfold auth_record. rewrite Hpw, Hactive, Hrole.
    split; [done|]. split; [done|]. destruct Hcred; auto.
Qed.

Lemma serve_auth_records reqs a :
  Forall auth_record (authUsers a) →
  Forall auth_record (authUsers (serve L cfg reqs a)).
Proof.
  revert a. induction reqs as [|[e op] reqs IH]; intros a Ha; simpl; [done|].
  by apply IH, handle_auth_records.
Qed.

(** X4. In every state the process can reach, every record of the auth
    controller's array is active, has the role "user", and has a password
    hash or an external id: no handler deactivates an account, changes a
    role or removes a credential. *)
Theorem reachable_auth_records a u :
  reachable L cfg a → u ∈ authUsers a → auth_record u.
Proof.
  intros [reqs ->] Hu.
  assert (Hall : Forall auth_record (authUsers (serve L cfg reqs boot)))
    by (apply serve_auth_records; constructor).
  by eapply Forall_forall in Hall.
Qed.

(** A signin answers Forbidden only for an array that holds an inactive
    record. *)
Lemma signin_forbidden_inactive e em pw users m :
  (exec (signin L cfg e em pw) users).1.1
  = Next (createError StatusCodes.FORBIDDEN m) →
  ∃ u, u ∈ users ∧ isActive u = false.
Proof.
  unfold signin, bcrypt_compare, generateToken, signRefreshToken, jwt_sign. run.
  destruct (list_find (λ u, User.email u = em) users) as [[i u]|] eqn:Hfind;
    simpl; [|discriminate].
  apply (find_first_match _) in Hfind as (Hi & _).
  destruct (isActive u) eqn:Hactive; simpl.
  - destruct (User.password u) as [h|]; simpl; [|discriminate].
    destruct (compare L pw h); simpl; discriminate.
  - intros _. exists u. split; [by eapply list_elem_of_lookup_2|done].
Qed.

(** X5. In a state the process can reach, a signin is never answered
    Forbidden: the branch for deactivated accounts is dead as long as the
    array is only written by the handlers. *)
Theorem reachable_signin_never_forbidden a e em pw m :
  reachable L cfg a →
  (handle L cfg e (Signin em pw) a).1
  ≠ Next (createError StatusCodes.FORBIDDEN m).
Proof.
  intros [reqs ->] Hforbidden.
  assert (Hall : Forall auth_record (authUsers (serve L cfg reqs boot)))
    by (apply serve_auth_records; constructor).
  unfold handle, on_auth in Hforbidden.
  destruct (signin_forbidden_inactive e em pw
              (authUsers (serve L cfg reqs boot)) m) as (u & Hu & Hinactive).
  - by destruct (exec (signin L cfg e em pw) (authUsers (serve L cfg reqs boot)))
      as [[r users'] l].
  - eapply Forall_forall in Hall as (Hactive & _); [|done]. congruence.
Qed.

(** The ids of the auth controller's array are distinct clock readings
    below [bound]. *)
Lemma handle_ids_below bound e op a :
  (bound ≤ now e)%N →
  ids_unique (authUsers a) →
  (∀ u, u ∈ authUsers a → ∃ t, (t < bound)%N ∧ id u = pretty t) →
  ids_unique (authUsers (handle L cfg e op a).2)
  ∧ ∀ u, u ∈ authUsers (handle L cfg e op a).2 →
         ∃ t, (t < now e + 1)%N ∧ id u = pretty t.
Proof.
  intros Hbound Hunique Hbelow.
  assert (Hweaken : ∀ u, u ∈ authUsers a → ∃ t, (t < now e + 1)%N ∧ id u = pretty t).
  { intros u Hu. destruct (Hbelow u Hu) as (t & Ht & Hid). exists t. split; [lia|done]. }
  destruct (auth_store_step e op a)
    as [->|[(u & -> & Hid & _)|(i & u & u' & Hi & -> & Hid & _)]].
  - done.
  - split.
    + unfold ids_unique. rewrite fmap_app. apply NoDup_app.
      split; [done|]. split; [|apply NoDup_singleton].
      intros x Hx Hu. apply list_elem_of_singleton in Hu as ->.
      apply list_elem_of_fmap in Hx as (v & Hv & Hin).
      destruct (Hbelow v Hin) as (t & Ht & Hvid).
      rewrite Hid, Hvid in Hv. apply (inj pretty) in Hv. lia.
    + intros v Hv. apply elem_of_app in Hv as [Hv|Hv]; [by apply Hweaken|].
      apply list_elem_of_singleton in Hv as ->. exists (now e). split; [lia|done].
  - split; [by apply (ids_unique_insert_same _ _ u)|].
    intros v Hv. apply list_elem_of_lookup in Hv as [j Hj].
    destruct (decide (i = j)) as [->|Hne].
    + rewrite list_lookup_insert_eq in Hj by by eapply lookup_lt_Some.
      injection Hj as <-. rewrite Hid. apply Hweaken.
      by eapply list_elem_of_lookup_2.
    + rewrite list_lookup_insert_ne in Hj by done.
      apply Hweaken. by eapply list_elem_of_lookup_2.
Qed.

Lemma serve_ids_below reqs bound a :
  clocks_increase bound reqs →
  ids_unique (authUsers a) →
  (∀ u, u ∈ authUsers a → ∃ t, (t < bound)%N ∧ id u = pretty t) →
  ids_unique (authUsers (serve L cfg reqs a)).
Proof.
  revert bound a.
  induction reqs as [|[e op] reqs IH]; intros bound a Hclocks Hunique Hbelow;
    simpl; [done|].
  destruct Hclocks as [Hbound Hclocks].
  destruct (handle_ids_below bound e op a Hbound Hunique Hbelow)
    as [Hunique' Hbelow'].
  by apply (IH (now e + 1)%N).
Qed.

(** X6. When the clock readings of the requests go up strictly from one
    request to the next, the ids of the auth controller's array are
    pairwise distinct. *)
Theorem ids_unique_under_increasing_clocks reqs :
  clocks_increase 0 reqs →
  ids_unique (authUsers (serve L cfg reqs boot)).
Proof.
  intros Hclocks. apply (serve_ids_below reqs 0%N); [done| |].
  - apply NoDup_nil_2.
  - intros u Hu. by apply elem_of_nil in Hu.
Qed.

End AuthStoreProperties.

Section AccountProperties.
Context (L : libraries) (cfg : config).
Implicit Types (e : env) (users : list user) (a : app).

(** X7. No handler removes a record of the auth controller's array or
    changes its id, its email or its password: whatever request is served,
    the record at an index is afterwards a record at that index with the
    same three fields.  (Account deletion, profile update and password
    change work on the user controller's array.) *)
Theorem auth_records_are_permanent e op a j v :
  authUsers a !! j = Some v →
  ∃ v', authUsers (handle L cfg e op a).2 !! j = Some v'
        ∧ id v' = id v ∧ User.email v' = User.email v
        ∧ User.password v' = User.password v.
Proof.
  intros Hj.
  destruct (auth_store_step L cfg e op a)
    as [->|[(u & -> & _)|(i & u & u' & Hi & -> & Hid & Hemail & Hpw & _)]].
  - by exists v.
  - exists v. split; [by apply lookup_app_l_Some|done].
  - destruct (decide (i = j)) as [->|Hne].
    + exists u'. rewrite list_lookup_insert_eq by by eapply lookup_lt_Some.
      assert (u = v) as -> by congruence. done.
    + exists v. by rewrite list_lookup_insert_ne.
Qed.


(** X9. An account created by a Google sign-in has no password hash: a
    signin with its email is answered with the error of [bcrypt.compare],
    whatever password is supplied, and changes nothing. *)
Theorem google_account_has_no_password_signin e e' payload users attempt :
  findGoogleUser (sub payload) (payload_email payload) users = None →
  ∃ u,
    findOrCreateUser e payload users = (Value u, users ++ [u], [])
    ∧ exec (signin L cfg e' (payload_email payload) attempt) (users ++ [u])
      = (Next (Thrown "Illegal arguments: string, object"), users ++ [u],
         [BcryptCompare attempt None]).
Proof.
  intros Hfind.
  exists (mkUser (pretty (now e)) (payload_name payload) (payload_email payload)
            None (Some (sub payload)) (picture payload) "user" true (Some true)
            (now e) (now e) None).
  split; [by apply findOrCreateUser_created|].
  eapply (signin_without_hash L cfg e' _ attempt _ (length users)).
  - apply first_match_snoc; [|reflexivity].
    apply list_find_None in Hfind. intros y Hy Hemail.
    eapply Forall_forall in Hfind; [|done]. apply Hfind. by right.
  - reflexivity.
  - reflexivity.
Qed.

End AccountProperties.

(** ** The user controller on an arbitrary array *)

Section ProfileProperties.
Context (L : libraries).
Implicit Types (e : env) (users : list user).

(** X10. When no record of the array has the requester's id, each of the
    four handlers answers 404 "User not found", leaves the array as it is
    and calls no library. *)
Theorem user_handlers_unknown_id e userId nm em cur new users :
  (∀ u, u ∈ users → User.id u ≠ userId) →
  let notFound := Next (createError StatusCodes.NOT_FOUND "User not found") in
  exec (getCurrentUser userId) users = (notFound, users, [])
  ∧ exec (updateCurrentUser e userId nm em) users = (notFound, users, [])
  ∧ exec (deleteCurrentUser userId) users = (notFound, users, [])
  ∧ exec (changePassword L e userId cur new) users = (notFound, users, []).
Proof.
  intros Hnone notFound. pose proof (no_match_find _ _ Hnone) as Hfind.
  unfold getCurrentUser, updateCurrentUser, deleteCurrentUser, changePassword.
  run. by rewrite Hfind.
Qed.

Lemma deleteCurrentUser_found userId users i u :
  first_match (λ u, User.id u = userId) users i u →
  exec (deleteCurrentUser userId) users
  = (Json StatusCodes.OK (Message true "Account deleted successfully"),
     delete i users, []).
Proof.
  intros Hfind%(first_match_find _). unfold deleteCurrentUser. run.
  by rewrite Hfind.
Qed.

(** X11. Deleting an account removes the first record with the requester's
    id and no other: the array is one record shorter, every other record
    stays, in order; and when the ids of the array are distinct, the id is
    unknown afterwards, so [getCurrentUser] answers 404. *)
Theorem deleteCurrentUser_removes_the_account userId users i u :
  first_match (λ u, User.id u = userId) users i u →
  exec (deleteCurrentUser userId) users
  = (Json StatusCodes.OK (Message true "Account deleted successfully"),
     take i users ++ drop (S i) users, [])
  ∧ length (take i users ++ drop (S i) users) = (length users - 1)%nat
  ∧ (ids_unique users →
     exec (getCurrentUser userId) (take i users ++ drop (S i) users)
     = (Next (createError StatusCodes.NOT_FOUND "User not found"),
        take i users ++ drop (S i) users, [])).
Proof.
  intros Hfind. pose proof Hfind as (Hi & Hid & _).
  rewrite <- delete_take_drop.
  split; [by apply (deleteCurrentUser_found _ _ _ u)|].
  split; [by apply length_delete|].
  intros Hunique.
  assert (Hnone : ∀ v, v ∈ delete i users → User.id v ≠ userId).
  { intros v Hv Hvid. apply list_elem_of_lookup in Hv as [j Hj].
    assert (Hk : ∃ k, k ≠ i ∧ users !! k = Some v).
    { destruct (decide (j < i)%nat).
      - exists j. rewrite list_lookup_delete_lt in Hj by done. split; [lia|done].
      - exists (S j). rewrite list_lookup_delete_ge in Hj by lia. split; [lia|done]. }
    destruct Hk as (k & Hne & Hk). apply Hne.
    apply (NoDup_lookup (User.id <$> users) k i userId Hunique).
    - by rewrite list_lookup_fmap, Hk; simpl; rewrite Hvid.
    - by rewrite list_lookup_fmap, Hi; simpl; rewrite Hid. }
  pose proof (no_match_find _ _ Hnone) as Hfind'.
  unfold getCurrentUser. run. by rewrite Hfind'.
Qed.

Lemma updateCurrentUser_applied e userId nm em users i current :
  first_match (λ u, User.id u = userId) users i current →
  (∀ other, other ∈ users → User.id other ≠ userId →
            Some (User.email other) ≠ em) →
  let updated :=
    set_updatedAt (now e)
      (set_email (or_else em (User.email current))
         (set_name (or_else nm (User.name current)) current)) in
  exec (updateCurrentUser e userId nm em) users
  = (Json StatusCodes.OK
       (Profile (Some "Profile updated successfully") (omit_password updated)),
     <[i := updated]> users, []).
Proof.
  intros Hfind%(first_match_find _) Hfree updated.
  assert (Hexists : emailExists (default "" em) userId users = false
                    ∨ truthy em = false).
  { destruct em as [m|]; [|by right]. left.
    apply bool_decide_eq_false. intros (other & Hin & Hemail & Hid)%Exists_exists.
    apply (Hfree other Hin Hid). simpl in Hemail. by rewrite Hemail. }
  unfold updateCurrentUser. run. rewrite Hfind.
  destruct Hexists as [->| ->]; [|done].
  by rewrite andb_false_r.
Qed.

(** X12. A profile update that clashes with no other user's email rewrites
    the requester's record in place: the record keeps its id, password,
    external id, role, [isActive] and creation time, every other record is
    untouched, and [getCurrentUser] then returns the profile the update
    returned. *)
Theorem updateCurrentUser_then_getCurrentUser e userId nm em users i current :
  first_match (λ u, User.id u = userId) users i current →
  (∀ other, other ∈ users → User.id other ≠ userId →
            Some (User.email other) ≠ em) →
  ∃ updated,
    exec (updateCurrentUser e userId nm em) users
    = (Json StatusCodes.OK
         (Profile (Some "Profile updated successfully") (omit_password updated)),
       <[i := updated]> users, [])
    ∧ same_account updated current
    ∧ (∀ j, j ≠ i → <[i := updated]> users !! j = users !! j)
    ∧ exec (getCurrentUser userId) (<[i := updated]> users)
      = (Json StatusCodes.OK (Profile None (omit_password updated)),
         <[i := updated]> users, []).
Proof.
  intros Hfind Hfree. eexists. split; [by apply updateCurrentUser_applied|].
  split; [by repeat split|]. split.
  - intros j Hne. by rewrite list_lookup_insert_ne.
  - assert (Hfind' : first_match (λ u, User.id u = userId)
                       (<[i := set_updatedAt (now e)
                                 (set_email (or_else em (User.email current))
                                    (set_name (or_else nm (User.name current))
                                       current))]> users) i
                       (set_updatedAt (now e)
                          (set_email (or_else em (User.email current))
                             (set_name (or_else nm (User.name current)) current)))).
    { apply (first_match_insert _ _ _ current); [done|]. simpl. apply Hfind. }
    apply (first_match_find _) in Hfind'.
    unfold getCurrentUser. run. by rewrite Hfind'.
Qed.

(** X13. A profile update cannot blank a field: with [name] and [email]
    missing or empty, only [updatedAt] changes. *)
Theorem updateCurrentUser_blank_fields e userId nm em users i current :
  first_match (λ u, User.id u = userId) users i current →
  truthy nm = false → truthy em = false →
  exec (updateCurrentUser e userId nm em) users
  = (Json StatusCodes.OK
       (Profile (Some "Profile updated successfully")
          (omit_password (set_updatedAt (now e) current))),
     <[i := set_updatedAt (now e) current]> users, []).
Proof.
  intros Hfind%(first_match_find _) Hnm Hem.
  assert (Hname : or_else nm (User.name current) = User.name current).
  { destruct nm as [[|c s]|]; done. }
  assert (Hemail : or_else em (User.email current) = User.email current).
  { destruct em as [[|c s]|]; done. }
  unfold updateCurrentUser. run. rewrite Hfind, Hem, Hname, Hemail. simpl.
  by destruct current.
Qed.

Lemma changePassword_mismatch e userId cur new users i u h :
  first_match (λ u, User.id u = userId) users i u →
  User.password u = Some h →
  compare L cur h = false →
  exec (changePassword L e userId cur new) users
  = (Next (createError StatusCodes.UNAUTHORIZED "Current password is incorrect"),
     users, [BcryptCompare cur (Some h)]).
Proof.
  intros Hfind%(first_match_find _) Hhash Hcmp.
  unfold changePassword, bcrypt_compare. run.
  by rewrite Hfind, Hhash, Hcmp.
Qed.

(** X14. After a password change, given that the new hash verifies the new
    password and no other: a further change that presents the new password
    as current is accepted, and one that presents anything else, the old
    password included, is answered 401 and changes nothing. *)
Theorem changePassword_then_changePassword e e' userId cur new next users i u h :
  first_match (λ u, User.id u = userId) users i u →
  User.password u = Some h →
  compare L cur h = true →
  verifies_only L (hash L new (salt e)) new →
  let changed := set_updatedAt (now e) (set_password (hash L new (salt e)) u) in
  (exec (changePassword L e userId cur new) users).1.2 = <[i := changed]> users
  ∧ (exec (changePassword L e' userId new next) (<[i := changed]> users)).1.1
    = Json StatusCodes.OK (Message true "Password changed successfully")
  ∧ ∀ attempt,
      attempt ≠ new →
      (exec (changePassword L e' userId attempt next) (<[i := changed]> users)).1
      = (Next (createError StatusCodes.UNAUTHORIZED "Current password is incorrect"),
         <[i := changed]> users).
Proof.
  intros Hfind Hhash Hcmp Hnew changed.
  assert (Hfind' : first_match (λ u, User.id u = userId) (<[i := changed]> users)
                     i changed).
  { apply (first_match_insert _ _ _ u); [done|]. simpl. apply Hfind. }
  split; [by rewrite (changePassword_replaces_hash L e userId cur new users i u h)|].
  split.
  - rewrite (changePassword_replaces_hash L e' userId new next _ i changed
               (hash L new (salt e))); try done.
    rewrite Hnew. by apply bool_decide_eq_true.
  - intros attempt Hattempt.
    rewrite (changePassword_mismatch e' userId attempt next _ i changed
               (hash L new (salt e))); try done.
    rewrite Hnew. by apply bool_decide_eq_false.
Qed.

(** X15. A handler of the user controller that answers through [next(err)]
    has not changed the array: the record is replaced or removed only on
    the way to a 200. *)
Theorem user_handlers_fail_without_change e userId nm em cur new users err :
  ((exec (getCurrentUser userId) users).1.1 = Next err →
   (exec (getCurrentUser userId) users).1.2 = users)
  ∧ ((exec (updateCurrentUser e userId nm em) users).1.1 = Next err →
     (exec (updateCurrentUser e userId nm em) users).1.2 = users)
  ∧ ((exec (deleteCurrentUser userId) users).1.1 = Next err →
     (exec (deleteCurrentUser userId) users).1.2 = users)
  ∧ ((exec (changePassword L e userId cur new) users).1.1 = Next err →
     (exec (changePassword L e userId cur new) users).1.2 = users).
Proof.
  unfold getCurrentUser, updateCurrentUser, deleteCurrentUser, changePassword,
    bcrypt_compare, bcrypt_genSalt, bcrypt_hash. run.
  destruct (list_find (λ u, User.id u = userId) users) as [[i u]|]; simpl;
    [|done].
  split; [done|]. split; [|split; [done|]].
  - by destruct (truthy em && negb (bool_decide (em = Some (User.email u)))
                 && emailExists (default "" em) userId users).
  - destruct (User.password u) as [h|]; simpl; [|done].
    by destruct (compare L cur h).
Qed.

End ProfileProperties.

(** ** Strings and validation chains *)

Lemma split_cons sep s : ∃ piece pieces, split sep s = piece :: pieces.
Proof.
  destruct s as [|c s]; simpl; [by eexists _, _|].
  destruct (Ascii.eqb c sep); [by eexists _, _|].
  destruct (split sep s); by eexists _, _.
Qed.

(** [split] cuts a string at every occurrence of the separator and
    nowhere else: there is always at least one piece, no piece contains
    the separator, and joining the pieces with the separator gives the
    string back. *)
Lemma split_join sep s :
  split sep s ≠ []
  ∧ Forall (λ piece, sep ∉ list_ascii_of_string piece) (split sep s)
  ∧ join sep (split sep s) = s.
Proof.
  split.
  { destruct (split_cons sep s) as (piece & pieces & ->). done. }
  induction s as [|c s [IHfree IHjoin]]; simpl.
  { split; [|done]. apply Forall_singleton. apply not_elem_of_nil. }
  destruct (Ascii.eqb_spec c sep) as [->|Hne].
  - split.
    + apply Forall_cons. split; [apply not_elem_of_nil|done].
    + destruct (split_cons sep s) as (piece & pieces & Hs).
      rewrite Hs in *. rewrite <- IHjoin. by destruct pieces.
  - destruct (split_cons sep s) as (piece & pieces & Hs). rewrite Hs in *.
    apply Forall_cons in IHfree as [Hpiece Hpieces]. split.
    + apply Forall_cons. split; [|done]. simpl.
      apply not_elem_of_cons. split; [congruence|done].
    + rewrite <- IHjoin. by destruct pieces.
Qed.

Lemma check_nil field value valid msg :
  check field value valid msg = [] ↔ valid (default "" value) = true.
Proof. unfold check. by destruct (valid (default "" value)). Qed.

Lemma passwordChain_option_policy field value :
  passwordChain field value = [] ↔ meets_policy (default "" value).
Proof.
  rewrite <- (passwordChain_policy field). by destruct value.
Qed.

(** X16. The validation chain of [POST /change-password] reports no error
    exactly when the current password is present and non-empty and the new
    password meets the complexity policy. *)
Theorem changePasswordValidation_passes currentPassword newPassword :
  changePasswordValidation currentPassword newPassword = []
  ↔ (∃ cur, currentPassword = Some cur ∧ cur ≠ "")
    ∧ meets_policy (default "" newPassword).
Proof.
  unfold changePasswordValidation.
  rewrite app_nil, check_nil, passwordChain_option_policy.
  unfold notEmpty. rewrite negb_true_iff, String.eqb_neq.
  split; intros [Hcur Hnew]; (split; [|done]).
  - destruct currentPassword as [cur|]; [by exists cur|done].
  - by destruct Hcur as (cur & -> & Hcur).
Qed.

(** ** The middleware *)

Lemma split_at_separator sep t rest :
  sep ∉ list_ascii_of_string t →
  split sep (t +:+ String sep rest) = t :: split sep rest.
Proof.
  induction t as [|c t IH]; simpl.
  - intros _. by rewrite Ascii.eqb_refl.
  - intros Hsep. apply not_elem_of_cons in Hsep as [Hc Ht].
    destruct (Ascii.eqb_spec c sep) as [->|_]; [done|].
    by rewrite (IH Ht).
Qed.

Section MiddlewareProperties.
Context (L : libraries) (cfg : config).
Implicit Types (e : env) (users : list user).

(** X17. Without a token the middleware answers 401 "No token provided"
    and does not call [jwt.verify]: when the header is missing or empty,
    when it does not start with "Bearer ", and when "Bearer " is followed
    by nothing or by another space. *)
Theorem authenticate_without_token e authorization users :
  authorization = None
  ∨ (∃ h, authorization = Some h ∧ String.prefix "Bearer " h = false)
  ∨ authorization = Some "Bearer "
  ∨ (∃ rest, authorization = Some ("Bearer " +:+ String " " rest)) →
  authenticate L cfg e authorization users
  = (Responded (Next (createError StatusCodes.UNAUTHORIZED "No token provided")),
     users, []).
Proof.
  intros [->|[(h & -> & Hprefix)|[->|[rest ->]]]]; [done| |done|done].
  unfold authenticate, try_catch, mbind, M_bind, bind, respond.
  destruct h as [|c s]; [done|]. by rewrite Hprefix.
Qed.

(** X18. Only the first word after "Bearer " is verified: whatever follows
    the next space of the header is ignored. *)
Theorem authenticate_first_word e token rest users :
  bearer token →
  authenticate L cfg e (Some ("Bearer " +:+ token +:+ String " " rest)) users
  = authenticate L cfg e (Some ("Bearer " +:+ token)) users.
Proof.
  intros Hbearer. rewrite (authenticate_bearer L cfg e token users Hbearer).
  destruct Hbearer as [Hnonempty Hspace].
  unfold authenticate, jwt_verify. run.
  change ("" +:+ token +:+ String " " rest) with (token +:+ String " " rest).
  rewrite (split_at_separator _ _ _ Hspace). simpl.
  destruct token as [|c t]; [done|].
  by destruct (verify L (String c t) (jwt_secret cfg) (now e)) as [d|[]].
Qed.

End MiddlewareProperties.

(** ** The routes *)

Section RouteProperties.
Context (L : libraries) (cfg : config).
Context (trim : string → string) (isEmail : string → bool).
Implicit Types (e : env) (users : list user).

Lemma signupValidation_passes name email password :
  signupValidation trim isEmail name email password = []
  ↔ trim (default "" name) ≠ ""
    ∧ isEmail (default "" email) = true
    ∧ meets_policy (default "" password).
Proof.
  unfold signupValidation.
  rewrite !app_nil, !check_nil, passwordChain_option_policy.
  unfold notEmpty. simpl. by rewrite negb_true_iff, String.eqb_neq.
Qed.

(** X20. On [POST /signup] the request is validated before the controller
    runs.  A password that violates the complexity policy is answered 422
    "Validation failed" with the array untouched and no library called;
    and whenever the route answers 201, the password met the policy, the
    trimmed name was non-empty and the email passed [isEmail]. *)
Theorem route_signup_validates e name email password users :
  (¬ meets_policy (default "" password) →
   exec (route_signup L cfg trim isEmail e name email password) users
   = (Next (ApiError StatusCodes.UNPROCESSABLE_ENTITY "Validation failed"
              (signupValidation trim isEmail name email password)),
      users, []))
  ∧ ∀ payload,
      (exec (route_signup L cfg trim isEmail e name email password) users).1.1
      = Json StatusCodes.CREATED payload →
      meets_policy (default "" password)
      ∧ trim (default "" name) ≠ ""
      ∧ isEmail (default "" email) = true.
Proof.
  pose proof (signupValidation_passes name email password) as Hpasses.
  unfold route_signup, validateRequest. run.
  destruct (signupValidation trim isEmail name email password) as [|err errs].
  - split; [intros Hweak; by destruct Hweak; apply Hpasses|].
    intros _ _. destruct Hpasses as [Hpasses _].
    destruct (Hpasses eq_refl) as (? & ? & ?). done.
  - split; [done|]. intros payload Hcreated. discriminate.
Qed.

(** X21. A request that [authenticate] turns away never reaches a
    controller of the user routes: each of the four routes answers with the
    answer of the middleware, the array is untouched and nothing but
    [jwt.verify] was called. *)
Theorem user_routes_require_authentication
    e authorization nm em cur new users r l :
  authenticate L cfg e authorization users = (Responded r, users, l) →
  exec (route_getCurrentUser L cfg e authorization) users = (r, users, l)
  ∧ exec (route_updateCurrentUser L cfg trim isEmail e authorization nm em) users
    = (r, users, l)
  ∧ exec (route_deleteCurrentUser L cfg e authorization) users = (r, users, l)
  ∧ exec (route_changePassword L cfg e authorization cur new) users = (r, users, l)
  ∧ (∃ m, r = Next (createError StatusCodes.UNAUTHORIZED m))
  ∧ ∀ c, c ∈ l → ∃ t, c = JwtVerify t.
Proof.
  intros Hauth.
  destruct (authenticate_cases L cfg e authorization users)
    as (o & l' & Hauth' & Hlog & Hcases).
  rewrite Hauth in Hauth'. injection Hauth' as <- <-.
  destruct Hcases as [[userId Hvalue]|[m Hr]]; [discriminate|].
  injection Hr as ->.
  unfold route_getCurrentUser, route_updateCurrentUser, route_deleteCurrentUser,
    route_changePassword.
  run. rewrite Hauth. eauto 10.
Qed.

(** X22. The access token a signup returns, presented to [GET /me] before
    it expires: the middleware accepts it and sets [req.userId] to the id
    of the new record, and the user controller, whose array is empty in
    every state the process can reach, answers 404 "User not found". *)
Theorem signup_token_finds_no_profile e e' nm em pw a :
  jsonwebtoken_contract L →
  reachable L cfg a →
  (∀ u, u ∈ authUsers a → User.email u ≠ em) →
  let access := sign L (pretty (now e)) (jwt_secret cfg) (jwt_expiresIn cfg) (now e) in
  bearer access →
  (now e' / 1000 < now e / 1000 + jwt_expiresIn cfg)%N →
  (∃ u refresh,
     (handle L cfg e (Signup nm em pw) a).1
     = Json StatusCodes.CREATED
         (Session (Some "User registered successfully") u access refresh)
     ∧ id u = pretty (now e))
  ∧ authenticate L cfg e' (Some ("Bearer " +:+ access))
      (userUsers (handle L cfg e (Signup nm em pw) a).2)
    = (Value (pretty (now e)), [], [JwtVerify access])
  ∧ exec (route_getCurrentUser L cfg e' (Some ("Bearer " +:+ access)))
      (userUsers (handle L cfg e (Signup nm em pw) a).2)
    = (Next (createError StatusCodes.NOT_FOUND "User not found"), [],
       [JwtVerify access]).
Proof.
  intros Hjwt [reqs ->] Hfresh access Hbearer Hvalid.
  assert (Hempty : userUsers (handle L cfg e (Signup nm em pw)
                                (serve L cfg reqs boot)).2 = []).
  { rewrite auth_handlers_frame by done. by apply serve_user_store_empty. }
  destruct (Hjwt (pretty (now e)) (jwt_secret cfg) (jwt_expiresIn cfg) (now e))
    as [_ Hverify].
  specialize (Hverify _ Hvalid).
  assert (Hauth : authenticate L cfg e' (Some ("Bearer " +:+ access)) []
                  = (Value (pretty (now e)), [], [JwtVerify access])).
  { rewrite (authenticate_bearer L cfg e' access [] Hbearer).
    unfold access. by rewrite Hverify. }
  rewrite Hempty. split; [|split; [done|]].
  - unfold handle, on_auth. rewrite (signup_created L cfg e nm em pw _ Hfresh).
    by eexists _, _.
  - unfold route_getCurrentUser. run. by rewrite Hauth.
Qed.

End RouteProperties.

(** ** The error handler *)

Section ErrorProperties.
Context (L : libraries) (cfg : config).

(** The errors the controllers build themselves. *)
Lemma handle_error_cases e op a err :
  (handle L cfg e op a).1 = Next err →
  (∃ m, err = Thrown m)
  ∨ ∃ c m, err = ApiError c m []
           ∧ c ∈ [StatusCodes.BAD_REQUEST; StatusCodes.UNAUTHORIZED;
                  StatusCodes.FORBIDDEN; StatusCodes.NOT_FOUND;
                  StatusCodes.CONFLICT]
           ∧ m ≠ "".
Proof.
  assert (Hapi : ∀ c m,
            c ∈ [StatusCodes.BAD_REQUEST; StatusCodes.UNAUTHORIZED;
                 StatusCodes.FORBIDDEN; StatusCodes.NOT_FOUND;
                 StatusCodes.CONFLICT] → m ≠ "" →
            (∃ m', createError c m = Thrown m')
            ∨ ∃ c' m', createError c m = ApiError c' m' []
                       ∧ c' ∈ [StatusCodes.BAD_REQUEST; StatusCodes.UNAUTHORIZED;
                               StatusCodes.FORBIDDEN; StatusCodes.NOT_FOUND;
                               StatusCodes.CONFLICT]
                       ∧ m' ≠ "").
  { intros c m Hc Hm. right. by exists c, m. }
  destruct op
    as [nm em pw|em pw|token| | | | | | |code|credential|uid|uid nm em|uid|uid cur new];
    unfold handle, on_auth, on_user, exec, signup, signin, refreshToken,
      forgotPassword, resetPassword, signout, facebookLogin, facebookCallback,
      googleLogin, googleCallback, googleAuth, findOrCreateUser, getCurrentUser,
      updateCurrentUser, deleteCurrentUser, changePassword, bcrypt_compare,
      bcrypt_genSalt, bcrypt_hash, generateToken, signRefreshToken, jwt_sign,
      jwt_verify, oauth_getToken, oauth_verifyIdToken, try_catch, mbind, M_bind,
      bind, mret, M_ret, ret, respond, throw, get_users, put_users, log;
    simpl; repeat case_match; simplify_eq; simpl;
    intros Herr; simplify_eq;
    try (left; by eexists);
    apply Hapi; try done; apply list_elem_of_In; simpl; tauto.
Qed.

(** X23. Every error a handler passes to [next] reaches the client as the
    handler built it: an [ApiError] has one of the codes 400, 401, 403, 404
    and 409 and a non-empty message, and the error handler of the
    application answers with that code and that message; an error thrown
    by a library is answered 500.  The stack is part of the answer only in
    development. *)
Theorem handler_errors_reach_the_client development e op a err :
  (handle L cfg e op a).1 = Next err →
  reply_success (globalErrorHandler development err) = false
  ∧ reply_stack (globalErrorHandler development err) = development
  ∧ match err with
    | ApiError c m _ =>
        reply_status (globalErrorHandler development err) = c
        ∧ reply_message (globalErrorHandler development err) = m
        ∧ c ∈ [StatusCodes.BAD_REQUEST; StatusCodes.UNAUTHORIZED;
               StatusCodes.FORBIDDEN; StatusCodes.NOT_FOUND; StatusCodes.CONFLICT]
    | Thrown _ =>
        reply_status (globalErrorHandler development err)
        = StatusCodes.INTERNAL_SERVER_ERROR
    end.
Proof.
  intros Herr. split; [done|]. split; [done|].
  destruct (handle_error_cases e op a err Herr) as [[m ->]|(c & m & -> & Hc & Hm)];
    [done|].
  split; [|split; [|done]].
  - unfold globalErrorHandler. simpl.
    destruct c as [|c]; [|done].
    exfalso. apply list_elem_of_In in Hc. simpl in Hc.
    unfold StatusCodes.BAD_REQUEST, StatusCodes.UNAUTHORIZED,
      StatusCodes.FORBIDDEN, StatusCodes.NOT_FOUND, StatusCodes.CONFLICT in Hc.
    intuition discriminate.
  - unfold globalErrorHandler. simpl.
    by destruct (String.eqb_spec m "").
Qed.

End ErrorProperties.

(** ** The further properties on the scenario *)

Lemma reference_hash_verifies_only plaintext salt :
  "$"%char ∉ list_ascii_of_string salt →
  verifies_only Reference.libs (Reference.hash plaintext salt) plaintext.
Proof.
  intros Hsalt attempt. simpl. unfold Reference.compare, Reference.hash.
  assert (Hafter : Reference.after_dollar (salt +:+ String "$" plaintext)
                   = plaintext).
  { induction salt as [|c salt IH]; simpl; [done|].
    apply not_elem_of_cons in Hsalt as [Hc Hsalt].
    destruct (Ascii.eqb_spec c "$"); [done|]. by apply IH. }
  rewrite Hafter.
  destruct (String.eqb_spec plaintext attempt) as [->|Hne].
  - symmetry. by apply bool_decide_eq_true.
  - symmetry. apply bool_decide_eq_false. congruence.
Qed.

Lemma scenario_salts_plain :
  ("$"%char ∉ list_ascii_of_string "s1") ∧ ("$"%char ∉ list_ascii_of_string "s2").
Proof.
  split; intros Hin;
    repeat (apply elem_of_cons in Hin as [Hin|Hin]; [discriminate|]);
    by apply elem_of_nil in Hin.
Qed.

Lemma scenario_access_bearer : bearer Scenario.annAccess.
Proof.
  split; [discriminate|]. vm_compute. intros Hin.
  repeat (apply elem_of_cons in Hin as [Hin|Hin]; [discriminate|]).
  by apply elem_of_nil in Hin.
Qed.

Lemma not_elem_of_nil_user (P : user → Prop) : ∀ u : user, u ∈ [] → P u.
Proof. intros u Hu. by apply elem_of_nil in Hu. Qed.

Lemma signup_then_signin_witness :
  (∃ stamped p,
     (exec (signin Reference.libs Scenario.cfg Scenario.e2 "ann@x.com" "Abcd1234")
        [Scenario.ann]).1
     = (Json 200
          (Session (Some "Logged in successfully") p
             (Reference.sign "1000" (jwt_secret Scenario.cfg) (days 7) 2000)
             (Reference.sign "1000" (jwt_secret Scenario.cfg) (days 30) 2000)),
        [stamped])
     ∧ lastLogin stamped = Some 2000%N
     ∧ User.password stamped = Some "s1$Abcd1234"
     ∧ name p = "Ann" ∧ lastLogin p = None)
  ∧ (exec (signin Reference.libs Scenario.cfg Scenario.e2 "ann@x.com" "abcd1234")
       [Scenario.ann]).1
    = (Next (ApiError 401 "Invalid credentials" []), [Scenario.ann]).
Proof.
  destruct (signup_then_signin Reference.libs Scenario.cfg Scenario.e1 Scenario.e2
              "Ann" "ann@x.com" "Abcd1234" [])
    as (_ & (stamped & p & Hsignin & Hstamped & Hshown) & Hother).
  - apply not_elem_of_nil_user.
  - apply reference_hash_verifies_only, scenario_salts_plain.
  - split.
    + exists stamped, p. split; [exact Hsignin|].
      destruct Hstamped as (Hlast & _ & _ & _ & Hpassword & _).
      destruct Hshown as (_ & Hname & _ & _ & _ & _ & _ & _ & _ & _ & Hlogin).
      split; [exact Hlast|]. split; [exact Hpassword|].
      split; [exact Hname|exact Hlogin].
    + apply (Hother "abcd1234"). discriminate.
Defined.

Lemma signups_at_one_clock_reading_collide_witness :
  ∃ u u' token refreshToken,
    exec (signup Reference.libs Scenario.cfg Scenario.e1 "Ann" "ann@x.com"
            "Abcd1234") []
    = (Json StatusCodes.CREATED
         (Session (Some "User registered successfully") (omit_password u)
            token refreshToken),
       [] ++ [u],
       [BcryptGenSalt 10; BcryptHash "Abcd1234" (salt Scenario.e1);
        JwtSign (id u) (jwt_expiresIn Scenario.cfg); JwtSign (id u) (days 30)])
    ∧ (exec (signup Reference.libs Scenario.cfg Scenario.e1 "Ben" "ben@x.com"
               "Wxyz9876") ([] ++ [u])).1
      = (Json StatusCodes.CREATED
           (Session (Some "User registered successfully") (omit_password u')
              token refreshToken),
         [] ++ [u; u'])
    ∧ User.email u = "ann@x.com" ∧ User.email u' = "ben@x.com" ∧ id u = id u'.
Proof.
  apply (signups_at_one_clock_reading_collide Reference.libs Scenario.cfg
           Scenario.e1 "Ann" "ann@x.com" "Abcd1234" "Ben" "ben@x.com" "Wxyz9876" []).
  - apply not_elem_of_nil_user.
  - apply not_elem_of_nil_user.
  - discriminate.
Defined.

Lemma scenario_reachable :
  reachable Reference.libs Scenario.cfg (mkApp [Scenario.ann; Scenario.gia] []).
Proof.
  exists [(Scenario.e1, Signup "Ann" "ann@x.com" "Abcd1234");
          (Scenario.e2, GoogleAuth (Some "g-gia|gia@x.com"))].
  reflexivity.
Qed.

Lemma reachable_auth_records_witness : auth_record Scenario.gia.
Proof.
  apply (reachable_auth_records Reference.libs Scenario.cfg
           (mkApp [Scenario.ann; Scenario.gia] []) Scenario.gia).
  - exact scenario_reachable.
  - apply list_elem_of_In. right. by left.
Defined.

Lemma reachable_signin_never_forbidden_witness :
  (handle Reference.libs Scenario.cfg Scenario.e3 (Signin "ann@x.com" "Abcd1234")
     (mkApp [Scenario.ann; Scenario.gia] [])).1
  ≠ Next (createError StatusCodes.FORBIDDEN "Account is deactivated").
Proof.
  apply (reachable_signin_never_forbidden Reference.libs Scenario.cfg).
  exact scenario_reachable.
Defined.

Lemma ids_unique_under_increasing_clocks_witness :
  ids_unique
    (authUsers
       (serve Reference.libs Scenario.cfg
          [(Scenario.e1, Signup "Ann" "ann@x.com" "Abcd1234");
           (Scenario.e2, GoogleAuth (Some "g-gia|gia@x.com"))] boot)).
Proof.
  apply (ids_unique_under_increasing_clocks Reference.libs Scenario.cfg).
  simpl. repeat split; discriminate.
Defined.

Lemma auth_records_are_permanent_witness :
  ∃ v', authUsers
          (handle Reference.libs Scenario.cfg Scenario.e3
             (GoogleAuth (Some "g-ann|ann@x.com"))
             (mkApp [Scenario.ann; Scenario.gia] [])).2 !! 0%nat = Some v'
        ∧ id v' = id Scenario.ann ∧ User.email v' = User.email Scenario.ann
        ∧ User.password v' = User.password Scenario.ann.
Proof.
  apply (auth_records_are_permanent Reference.libs Scenario.cfg Scenario.e3
           (GoogleAuth (Some "g-ann|ann@x.com"))
           (mkApp [Scenario.ann; Scenario.gia] []) 0%nat Scenario.ann).
  reflexivity.
Defined.


Lemma google_account_has_no_password_signin_witness :
  ∃ u,
    findOrCreateUser Scenario.e2 (mkPayload "g-gia" "gia@x.com" "Google user" None)
      [Scenario.ann]
    = (Value u, [Scenario.ann] ++ [u], [])
    ∧ exec (signin Reference.libs Scenario.cfg Scenario.e3 "gia@x.com" "Abcd1234")
        ([Scenario.ann] ++ [u])
      = (Next (Thrown "Illegal arguments: string, object"), [Scenario.ann] ++ [u],
         [BcryptCompare "Abcd1234" None]).
Proof.
  apply (google_account_has_no_password_signin Reference.libs Scenario.cfg
           Scenario.e2 Scenario.e3
           (mkPayload "g-gia" "gia@x.com" "Google user" None) [Scenario.ann]
           "Abcd1234").
  reflexivity.
Defined.

Lemma user_handlers_unknown_id_witness :
  exec (deleteCurrentUser "9999") [Scenario.ann; Scenario.bob]
  = (Next (createError StatusCodes.NOT_FOUND "User not found"),
     [Scenario.ann; Scenario.bob], []).
Proof.
  destruct (user_handlers_unknown_id Reference.libs Scenario.e2 "9999" None None
              "" "" [Scenario.ann; Scenario.bob]) as (_ & _ & Hdelete & _).
  - intros u Hu. apply list_elem_of_In in Hu.
    destruct Hu as [<-|[<-|[]]]; discriminate.
  - exact Hdelete.
Defined.

Lemma deleteCurrentUser_removes_the_account_witness :
  exec (deleteCurrentUser "1000") [Scenario.ann; Scenario.bob]
  = (Json StatusCodes.OK (Message true "Account deleted successfully"),
     [Scenario.bob], [])
  ∧ exec (getCurrentUser "1000") [Scenario.bob]
    = (Next (createError StatusCodes.NOT_FOUND "User not found"),
       [Scenario.bob], []).
Proof.
  destruct (deleteCurrentUser_removes_the_account "1000"
              [Scenario.ann; Scenario.bob] 0%nat Scenario.ann)
    as (Hdelete & _ & Hget).
  - apply (find_first_match _). reflexivity.
  - split; [exact Hdelete|]. apply Hget.
    apply (bool_decide_unpack _). vm_compute. exact I.
Defined.

Lemma updateCurrentUser_then_getCurrentUser_witness :
  ∃ updated,
    exec (updateCurrentUser Scenario.e3 "1500" (Some "Robert") (Some "rob@x.com"))
      [Scenario.ann; Scenario.bob]
    = (Json StatusCodes.OK
         (Profile (Some "Profile updated successfully") (omit_password updated)),
       <[1%nat := updated]> [Scenario.ann; Scenario.bob], [])
    ∧ same_account updated Scenario.bob
    ∧ (∀ j, j ≠ 1%nat →
            <[1%nat := updated]> [Scenario.ann; Scenario.bob] !! j
            = [Scenario.ann; Scenario.bob] !! j)
    ∧ exec (getCurrentUser "1500") (<[1%nat := updated]> [Scenario.ann; Scenario.bob])
      = (Json StatusCodes.OK (Profile None (omit_password updated)),
         <[1%nat := updated]> [Scenario.ann; Scenario.bob], []).
Proof.
  apply (updateCurrentUser_then_getCurrentUser Scenario.e3 "1500" (Some "Robert")
           (Some "rob@x.com") [Scenario.ann; Scenario.bob] 1%nat Scenario.bob).
  - apply (find_first_match _). reflexivity.
  - intros other Hin Hid. apply list_elem_of_In in Hin.
    destruct Hin as [<-|[<-|[]]]; discriminate.
Defined.

Lemma updateCurrentUser_blank_fields_witness :
  exec (updateCurrentUser Scenario.e3 "1000" (Some "") None)
    [Scenario.ann; Scenario.bob]
  = (Json StatusCodes.OK
       (Profile (Some "Profile updated successfully")
          (omit_password (set_updatedAt 3000 Scenario.ann))),
     [set_updatedAt 3000 Scenario.ann; Scenario.bob], []).
Proof.
  apply (updateCurrentUser_blank_fields Scenario.e3 "1000" (Some "") None
           [Scenario.ann; Scenario.bob] 0%nat Scenario.ann).
  - apply (find_first_match _). reflexivity.
  - reflexivity.
  - reflexivity.
Defined.

Lemma changePassword_then_changePassword_witness :
  (exec (changePassword Reference.libs Scenario.e3 "1000" "Abcd1234" "Ijkl9012")
     [set_updatedAt 2000 (set_password (Reference.hash "Efgh5678" "s2") Scenario.ann)]).1
  = (Next (createError StatusCodes.UNAUTHORIZED "Current password is incorrect"),
     [set_updatedAt 2000 (set_password (Reference.hash "Efgh5678" "s2") Scenario.ann)]).
Proof.
  destruct (changePassword_then_changePassword Reference.libs Scenario.e2
              Scenario.e3 "1000" "Abcd1234" "Efgh5678" "Ijkl9012" [Scenario.ann]
              0%nat Scenario.ann "s1$Abcd1234") as (_ & _ & Hold).
  - apply (find_first_match _). reflexivity.
  - reflexivity.
  - reflexivity.
  - apply reference_hash_verifies_only, scenario_salts_plain.
  - apply (Hold "Abcd1234"). discriminate.
Defined.

Lemma user_handlers_fail_without_change_witness :
  (exec (changePassword Reference.libs Scenario.e2 "1000" "wrong" "Efgh5678")
     [Scenario.ann]).1.2
  = [Scenario.ann].
Proof.
  destruct (user_handlers_fail_without_change Reference.libs Scenario.e2 "1000"
              None None "wrong" "Efgh5678" [Scenario.ann]
              (createError StatusCodes.UNAUTHORIZED "Current password is incorrect"))
    as (_ & _ & _ & Hchange).
  apply Hchange. reflexivity.
Defined.

Lemma changePasswordValidation_passes_witness :
  changePasswordValidation (Some "Abcd1234") (Some "Efgh5678") = [].
Proof.
  apply (proj2 (changePasswordValidation_passes (Some "Abcd1234") (Some "Efgh5678"))).
  split; [by exists "Abcd1234"|].
  apply (passwordChain_policy "newPassword"). reflexivity.
Defined.

Lemma authenticate_without_token_witness :
  authenticate Reference.libs Scenario.cfg Scenario.e2 (Some "Basic dXNlcg==") []
  = (Responded (Next (createError StatusCodes.UNAUTHORIZED "No token provided")),
     [], []).
Proof.
  apply (authenticate_without_token Reference.libs Scenario.cfg).
  right. left. by exists "Basic dXNlcg==".
Defined.

Lemma authenticate_first_word_witness :
  authenticate Reference.libs Scenario.cfg Scenario.e2
    (Some ("Bearer " +:+ Scenario.annAccess +:+ String " " "trailing words")) []
  = authenticate Reference.libs Scenario.cfg Scenario.e2
      (Some ("Bearer " +:+ Scenario.annAccess)) [].
Proof.
  apply (authenticate_first_word Reference.libs Scenario.cfg).
  exact scenario_access_bearer.
Defined.

Lemma route_signup_validates_witness :
  exec (route_signup Reference.libs Scenario.cfg ReferenceValidator.trim
          ReferenceValidator.isEmail Scenario.e1 (Some "Ann") (Some "ann@x.com")
          (Some "weak")) []
  = (Next (ApiError StatusCodes.UNPROCESSABLE_ENTITY "Validation failed"
             (signupValidation ReferenceValidator.trim ReferenceValidator.isEmail
                (Some "Ann") (Some "ann@x.com") (Some "weak"))),
     [], []).
Proof.
  apply (proj1 (route_signup_validates Reference.libs Scenario.cfg
                  ReferenceValidator.trim ReferenceValidator.isEmail Scenario.e1
                  (Some "Ann") (Some "ann@x.com") (Some "weak") [])).
  intros (Hlen & _). simpl in Hlen. lia.
Defined.

Lemma user_routes_require_authentication_witness :
  exec (route_deleteCurrentUser Reference.libs Scenario.cfg Scenario.e2
          (Some ("Bearer " +:+ Scenario.stale))) [Scenario.ann]
  = (Next (createError StatusCodes.UNAUTHORIZED "Token expired"), [Scenario.ann],
     [JwtVerify Scenario.stale]).
Proof.
  destruct (user_routes_require_authentication Reference.libs Scenario.cfg
              ReferenceValidator.trim ReferenceValidator.isEmail Scenario.e2
              (Some ("Bearer " +:+ Scenario.stale)) None None None None
              [Scenario.ann]
              (Next (createError StatusCodes.UNAUTHORIZED "Token expired"))
              [JwtVerify Scenario.stale])
    as (_ & _ & Hdelete & _).
  - reflexivity.
  - exact Hdelete.
Defined.

Lemma signup_token_finds_no_profile_witness :
  exec (route_getCurrentUser Reference.libs Scenario.cfg Scenario.e2
          (Some ("Bearer " +:+ Scenario.annAccess)))
    (userUsers (handle Reference.libs Scenario.cfg Scenario.e1
                  (Signup "Ann" "ann@x.com" "Abcd1234") boot).2)
  = (Next (createError StatusCodes.NOT_FOUND "User not found"), [],
     [JwtVerify Scenario.annAccess]).
Proof.
  destruct (signup_token_finds_no_profile Reference.libs Scenario.cfg Scenario.e1
              Scenario.e2 "Ann" "ann@x.com" "Abcd1234" boot)
    as (_ & _ & Hme).
  - exact ReferenceFacts.contract.
  - by exists [].
  - apply not_elem_of_nil_user.
  - exact scenario_access_bearer.
  - reflexivity.
  - exact Hme.
Defined.

Lemma handler_errors_reach_the_client_witness :
  reply_status
    (globalErrorHandler false (createError StatusCodes.CONFLICT "Email already in use"))
  = 409%nat
  ∧ reply_message
      (globalErrorHandler false
         (createError StatusCodes.CONFLICT "Email already in use"))
    = "Email already in use".
Proof.
  destruct (handler_errors_reach_the_client Reference.libs Scenario.cfg false
              Scenario.e2 (Signup "Ann" "ann@x.com" "Abcd1234")
              (mkApp [Scenario.ann] [])
              (createError StatusCodes.CONFLICT "Email already in use"))
    as (_ & _ & Hstatus & Hmessage & _).
  - reflexivity.
  - by split.
Defined.
